(** * Offline sync engine: a model of [SyncService] and its properties

    The development follows [services/syncService.ts]: the two tables the
    service touches ([tasks] and [sync_queue]) are lists of rows, every
    [async] method is a computation that threads the state of the process
    and may throw, and the outside world (wall clock, SQLite outcome,
    health endpoint, uuid source) is an oracle indexed by the number of
    interactions made so far. *)

From Stdlib Require Import ZArith String List Bool Lia Permutation Sorted.
Import ListNotations.
Open Scope string_scope.
Open Scope Z_scope.
Open Scope list_scope.

(** ** Data model *)

(** [operation] column of [sync_queue]: ['create' | 'update' | 'delete']. *)
Inductive Operation := create | update | delete.

Definition operation_name (o : Operation) : string :=
  match o with
  | create => "create"
  | update => "update"
  | delete => "delete"
  end.

(** [status] column of [sync_queue]. *)
Inductive QueueStatus := pending | synced | failed.

(** [sync_status] column of [tasks]. *)
Inductive SyncStatus := task_pending | task_synced | task_error.

(** Timestamps are milliseconds since the epoch. The code stores them as
    [toISOString()] text, whose fixed-width format orders like the number. *)
Definition Timestamp := Z.

Record Task := mkTask {
  id : string;
  title : string;
  description : string;
  completed : bool;
  created_at : Timestamp;
  updated_at : Timestamp;
  is_deleted : bool;
  sync_status : SyncStatus;
  server_id : option string;
  last_synced_at : option Timestamp
}.

(** A row of [sync_queue]; [data] is the JSON text of the task snapshot. *)
Record SyncQueueItem := mkItem {
  q_id : string;
  task_id : string;
  operation : Operation;
  data : string;
  q_created_at : Timestamp;
  retry_count : Z;
  error_message : option string;
  status : QueueStatus;
  synced_at : option Timestamp
}.

(** One entry of [SyncResult.errors]. *)
Record SyncError := mkSyncError {
  err_task_id : string;
  err_operation : string;
  err_error : string;
  err_timestamp : Timestamp
}.

Record SyncResult := mkSyncResult {
  success : nat;
  synced_items : nat;
  failed_items : nat;
  errors : list SyncError
}.

(** Per-item outcome of [BatchSyncResponse.processed_items]. The service
    only ever builds ['success'] and ['error'] outcomes. *)
Inductive OutcomeStatus := success_status | conflict_status | error_status.

Record ProcessedItem := mkProcessed {
  client_id : string;
  p_server_id : string;
  p_status : OutcomeStatus;
  p_error : option string
}.

Record BatchSyncResponse := mkResponse {
  processed_items : list ProcessedItem
}.

(** Lines written with [console.log] / [console.error], one constructor per
    call site, carrying the interpolated values. *)
Inductive LogEvent :=
| LogStartSync
| LogSyncAborted
| LogNothingToSync
| LogBatchFailed (msg : string)
| LogAddedToQueue (taskId : string) (op : Operation)
| LogProcessingBatch (n : nat)
| LogSendingBatch
| LogBatchSynced
| LogProcessBatchFailed (msg : string)
| LogClientWins (taskId : string)
| LogServerWins (taskId : string)
| LogEqualDefaultServer (taskId : string)
| LogConflictResolved (taskId : string)
| LogTaskSynced (taskId : string)
| LogTaskError (taskId : string)
| LogUpdateStatusFailed (taskId msg : string)
| LogPermanentFailure (taskId : string) (retryCount : Z)
| LogRetryLater (taskId : string) (retryCount maxRetries : Z)
| LogRetryInfoFailed (taskId msg : string).

(** State of the process: the two tables, the console, and the number of
    interactions with the outside made so far. *)
Record World := mkWorld {
  tasks : list Task;
  sync_queue : list SyncQueueItem;
  console : list LogEvent;
  steps : nat
}.

(** The outside, as seen at the n-th interaction: what [new Date()] reads,
    whether the SQLite call fails (and with which message), whether
    [GET /health] answers, and what [uuidv4()] yields. *)
Record Env := mkEnv {
  wall_clock : nat -> Timestamp;
  db_error : nat -> option string;
  health : nat -> bool;
  uuid : nat -> string
}.

(** [SYNC_BATCH_SIZE] and [SYNC_RETRY_ATTEMPTS] of [process.env], after
    [parseInt(..., 10)] (defaults 10 and 3); a value that does not parse as
    an integer is outside the model. *)
Record Config := mkConfig {
  batchSize : Z;
  maxRetries : Z
}.

(** ** Computations that thread the world and may throw *)

Inductive Result (A : Type) :=
| Ok (a : A)
| Throw (message : string).
Arguments Ok {A} a.
Arguments Throw {A} message.

Definition M (A : Type) := World -> Result A * World.

Definition ret {A} (a : A) : M A := fun w => (Ok a, w).

Definition bind {A B} (m : M A) (k : A -> M B) : M B :=
  fun w =>
    match m w with
    | (Ok a, w') => k a w'
    | (Throw e, w') => (Throw e, w')
    end.

(** [try { body } catch (err) { handler(err) }] *)
Definition try_catch {A} (body : M A) (handler : string -> M A) : M A :=
  fun w =>
    match body w with
    | (Ok a, w') => (Ok a, w')
    | (Throw e, w') => handler e w'
    end.

Declare Scope js_scope.
Delimit Scope js_scope with js.
Notation "x <- m ;; k" := (bind m (fun x => k))
  (at level 100, m at next level, right associativity) : js_scope.
Notation "m ;; k" := (bind m (fun _ => k))
  (at level 100, right associativity) : js_scope.
Open Scope js_scope.

(** [for (const x of xs) { await body(x) }] *)
Fixpoint for_each {A} (xs : list A) (body : A -> M unit) : M unit :=
  match xs with
  | [] => ret tt
  | x :: rest => body x ;; for_each rest body
  end.

Definition tick (w : World) : World :=
  mkWorld (tasks w) (sync_queue w) (console w) (S (steps w)).

Definition log (e : LogEvent) : M unit :=
  fun w => (Ok tt, mkWorld (tasks w) (sync_queue w) (console w ++ [e]) (steps w)).

(** ** Row-level SQL *)

Definition eqb_status (a b : QueueStatus) : bool :=
  match a, b with
  | pending, pending | synced, synced | failed, failed => true
  | _, _ => false
  end.

(** [UPDATE t SET ... WHERE key = k] *)
Definition update_where {R} (key : R -> string) (k : string) (f : R -> R)
  (rows : list R) : list R :=
  map (fun r => if String.eqb (key r) k then f r else r) rows.

(** [DELETE FROM t WHERE key = k] *)
Definition delete_where {R} (key : R -> string) (k : string)
  (rows : list R) : list R :=
  filter (fun r => negb (String.eqb (key r) k)) rows.

(** [db.get('SELECT ... WHERE key = k')]: the first matching row. *)
Definition select_first {R} (key : R -> string) (k : string)
  (rows : list R) : option R :=
  find (fun r => String.eqb (key r) k) rows.

(** [ORDER BY created_at ASC]: the query names no second key; rows with
    equal [created_at] come out in table order. *)
Fixpoint insert_by_created_at (x : SyncQueueItem) (l : list SyncQueueItem)
  : list SyncQueueItem :=
  match l with
  | [] => [x]
  | y :: rest =>
      if q_created_at x <=? q_created_at y then x :: l
      else y :: insert_by_created_at x rest
  end.

Definition order_by_created_at (l : list SyncQueueItem) : list SyncQueueItem :=
  fold_right insert_by_created_at [] l.

Section Service.

Variable env : Env.
Variable cfg : Config.

(** [new Date()] *)
Definition new_Date : M Timestamp :=
  fun w => (Ok (wall_clock env (steps w)), tick w).

(** [uuidv4()] *)
Definition uuidv4 : M string :=
  fun w => (Ok (uuid env (steps w)), tick w).

(** [await this.db.run(sql, params)]: the statement is applied as a whole or
    the call rejects and leaves the tables as they were. *)
Definition db_run (stmt : World -> World) : M unit :=
  fun w =>
    match db_error env (steps w) with
    | Some e => (Throw e, tick w)
    | None => (Ok tt, tick (stmt w))
    end.

(** [await this.db.get(sql, params)] and [await this.db.all(sql, params)] *)
Definition db_query {A} (q : World -> A) : M A :=
  fun w =>
    match db_error env (steps w) with
    | Some e => (Throw e, tick w)
    | None => (Ok (q w), tick w)
    end.

Definition set_tasks (f : list Task -> list Task) (w : World) : World :=
  mkWorld (f (tasks w)) (sync_queue w) (console w) (steps w).

Definition set_queue (f : list SyncQueueItem -> list SyncQueueItem)
  (w : World) : World :=
  mkWorld (tasks w) (f (sync_queue w)) (console w) (steps w).

(** *** [SyncService] *)

(** [checkConnectivity]: [axios.get(health)] inside [try], [false] on any
    rejection; it never throws. *)
Definition checkConnectivity : M bool :=
  fun w => (Ok (health env (steps w)), tick w).

(** [getPendingQueueItems]:
    [SELECT * FROM sync_queue WHERE status = 'pending' ORDER BY created_at ASC] *)
Definition pending_rows (q : list SyncQueueItem) : list SyncQueueItem :=
  order_by_created_at (filter (fun r => eqb_status (status r) pending) q).

Definition getPendingQueueItems : M (list SyncQueueItem) :=
  db_query (fun w => pending_rows (sync_queue w)).

Definition set_synced (now : Timestamp) (r : SyncQueueItem) : SyncQueueItem :=
  mkItem (q_id r) (task_id r) (operation r) (data r) (q_created_at r)
         (retry_count r) (error_message r) synced (Some now).

(** [markAsSynced]:
    [UPDATE sync_queue SET status = 'synced', synced_at = now WHERE id = ?] *)
Definition markAsSynced (queueId : string) : M unit :=
  now <- new_Date ;;
  db_run (set_queue (update_where q_id queueId (set_synced now))).

(** Modelled from the spec: the schema of [sync_queue] (db/database.ts) is
    not part of the sources; the columns the INSERT leaves out take their
    defaults, [status = pending], no [error_message], no [synced_at]. *)
Definition new_queue_row (id taskId : string) (op : Operation) (data : string)
  (now : Timestamp) : SyncQueueItem :=
  mkItem id taskId op data now 0 None pending None.

(** [addToSyncQueue]; [data] is [JSON.stringify] of the task snapshot. *)
Definition addToSyncQueue (taskId : string) (op : Operation) (data : string)
  : M unit :=
  id <- uuidv4 ;;
  now <- new_Date ;;
  db_run (set_queue (fun q => q ++ [new_queue_row id taskId op data now])) ;;
  log (LogAddedToQueue taskId op).

(** The [status] argument of [updateSyncStatus]: ['synced' | 'error']. *)
Inductive StatusArg := arg_synced | arg_error.

Definition status_of_arg (s : StatusArg) : SyncStatus :=
  match s with arg_synced => task_synced | arg_error => task_error end.

(** [COALESCE(?, server_id)] *)
Definition coalesce {A} (a b : option A) : option A :=
  match a with Some _ => a | None => b end.

Definition set_sync_status (s : SyncStatus) (serverId : option string)
  (now : Timestamp) (t : Task) : Task :=
  mkTask (id t) (title t) (description t) (completed t) (created_at t)
         (updated_at t) (is_deleted t) s (coalesce serverId (server_id t))
         (Some now).

(** [updateSyncStatus]; [serverId] stands for [serverData?.server_id ?? null].
    The whole body sits in [try { } catch], which logs and returns. *)
Definition updateSyncStatus (taskId : string) (st : StatusArg)
  (serverId : option string) : M unit :=
  try_catch
    (now <- new_Date ;;
     db_run (set_tasks (update_where id taskId
                          (set_sync_status (status_of_arg st) serverId now))) ;;
     log (match st with
          | arg_synced => LogTaskSynced taskId
          | arg_error => LogTaskError taskId
          end) ;;
     match st with
     | arg_synced => db_run (set_queue (delete_where task_id taskId))
     | arg_error => ret tt
     end)
    (fun error => log (LogUpdateStatusFailed taskId error)).

(** [x || 0] on a number read from a row that may be absent. *)
Definition or_zero (x : option Z) : Z :=
  match x with
  | Some v => if v =? 0 then 0 else v
  | None => 0
  end.

Definition set_retry (retryCount : Z) (message : string) (st : QueueStatus)
  (r : SyncQueueItem) : SyncQueueItem :=
  mkItem (q_id r) (task_id r) (operation r) (data r) (q_created_at r)
         retryCount (Some message) st (synced_at r).

(** [handleSyncError]: returns [Promise<void>]. *)
Definition handleSyncError (item : SyncQueueItem) (error : string) : M unit :=
  try_catch
    (current <- db_query (fun w => select_first q_id (q_id item) (sync_queue w)) ;;
     let retryCount := or_zero (option_map retry_count current) + 1 in
     let isPermanentFailure := maxRetries cfg <=? retryCount in
     db_run (set_queue (update_where q_id (q_id item)
               (set_retry retryCount error
                  (if isPermanentFailure then failed else pending)))) ;;
     log (if isPermanentFailure
          then LogPermanentFailure (task_id item) retryCount
          else LogRetryLater (task_id item) retryCount (maxRetries cfg)))
    (fun err => log (LogRetryInfoFailed (task_id item) err)).

Definition set_resolved (r : Task) (now : Timestamp) (t : Task) : Task :=
  mkTask (id t) (title r) (description r) (completed r) (created_at t)
         (updated_at r) (is_deleted t) task_synced (server_id r) (Some now).

(** [resolveConflict]: last write wins, the server on a tie; the winner is
    written to [tasks] and returned. *)
Definition resolveConflict (localTask serverTask : Task) : M Task :=
  let localUpdated := updated_at localTask in
  let serverUpdated := updated_at serverTask in
  resolved <-
    (if serverUpdated <? localUpdated then
       log (LogClientWins (id localTask)) ;; ret localTask
     else if localUpdated <? serverUpdated then
       log (LogServerWins (id localTask)) ;; ret serverTask
     else
       log (LogEqualDefaultServer (id localTask)) ;; ret serverTask) ;;
  now <- new_Date ;;
  db_run (set_tasks (update_where id (id resolved) (set_resolved resolved now))) ;;
  log (LogConflictResolved (id resolved)) ;;
  ret resolved.

Definition success_outcome (item : SyncQueueItem) : ProcessedItem :=
  mkProcessed (q_id item) (task_id item) success_status None.

Definition error_outcome (message : string) (item : SyncQueueItem)
  : ProcessedItem :=
  mkProcessed (q_id item) (task_id item) error_status (Some message).

(** The [try] block of [processBatch]: the request to the server is a
    simulated delay, every item is answered ['success'], then each task is
    marked synced and each queue row marked as synced. *)
Definition processBatch_try (items : list SyncQueueItem) : M BatchSyncResponse :=
  log LogSendingBatch ;;
  let processed_items := map success_outcome items in
  log LogBatchSynced ;;
  for_each items (fun item =>
    updateSyncStatus (task_id item) arg_synced None ;;
    markAsSynced (q_id item)) ;;
  ret (mkResponse processed_items).

(** The [catch] block of [processBatch]. *)
Definition processBatch_catch (items : list SyncQueueItem) (error : string)
  : M BatchSyncResponse :=
  log (LogProcessBatchFailed error) ;;
  let failedItems := map (error_outcome error) items in
  for_each items (fun item =>
    updateSyncStatus (task_id item) arg_error None ;;
    handleSyncError item error) ;;
  ret (mkResponse failedItems).

Definition processBatch (items : list SyncQueueItem) : M BatchSyncResponse :=
  log (LogProcessingBatch (length items)) ;;
  _client_timestamp <- new_Date ;;
  try_catch (processBatch_try items) (processBatch_catch items).

(** *** [sync] *)

(** [Array.prototype.slice(start, end)], negative indices counted from the
    end, both clamped to the array. *)
Definition js_slice {A} (s e : Z) (l : list A) : list A :=
  let len := Z.of_nat (length l) in
  let rel k := if k <? 0 then Z.max (len + k) 0 else Z.min k len in
  firstn (Z.to_nat (rel e - rel s)) (skipn (Z.to_nat (rel s)) l).

Definition is_success (p : ProcessedItem) : bool :=
  match p_status p with success_status => true | _ => false end.

Definition is_error (p : ProcessedItem) : bool :=
  match p_status p with error_status => true | _ => false end.

(** [f.error || 'Unknown error'] *)
Definition error_text (e : option string) : string :=
  match e with
  | Some EmptyString => "Unknown error"
  | Some m => m
  | None => "Unknown error"
  end.

(** The running counters of the loop: [synced], [failed], [errors]. *)
Record Totals := mkTotals {
  t_synced : nat;
  t_failed : nat;
  t_errors : list SyncError
}.

(** [failedBatch.forEach((f) => errors.push({...}))] *)
Fixpoint push_failed (failedBatch : list ProcessedItem)
  (errors : list SyncError) : M (list SyncError) :=
  match failedBatch with
  | [] => ret errors
  | f :: rest =>
      now <- new_Date ;;
      push_failed rest
        (errors ++ [mkSyncError (client_id f) "sync" (error_text (p_error f)) now])
  end.

(** [for (const item of batch) { errors.push({...}); await handleSyncError }]
    of the [catch] around [processBatch]. *)
Fixpoint push_batch_errors (batch : list SyncQueueItem) (err : string)
  (errors : list SyncError) : M (list SyncError) :=
  match batch with
  | [] => ret errors
  | item :: rest =>
      now <- new_Date ;;
      handleSyncError item err ;;
      push_batch_errors rest err
        (errors ++ [mkSyncError (task_id item) (operation_name (operation item))
                      err now])
  end.

(** Body of the [for] loop of [sync] for one batch. *)
Definition batch_step (batch : list SyncQueueItem) (acc : Totals) : M Totals :=
  try_catch
    (result <- processBatch batch ;;
     let successful := length (filter is_success (processed_items result)) in
     let failedBatch := filter is_error (processed_items result) in
     errors' <- push_failed failedBatch (t_errors acc) ;;
     ret (mkTotals (t_synced acc + successful)
                   (t_failed acc + length failedBatch) errors'))
    (fun err =>
       log (LogBatchFailed err) ;;
       errors' <- push_batch_errors batch err (t_errors acc) ;;
       ret (mkTotals (t_synced acc) (t_failed acc + length batch) errors')).

(** [for (let i = 0; i < items.length; i += batchSize)]; [None] when the
    given number of iterations did not reach the end of the loop. *)
Fixpoint sync_loop (fuel : nat) (items : list SyncQueueItem) (i : Z)
  (acc : Totals) : M (option Totals) :=
  if i <? Z.of_nat (length items) then
    match fuel with
    | O => ret None
    | S fuel' =>
        acc' <- batch_step (js_slice i (i + batchSize cfg) items) acc ;;
        sync_loop fuel' items (i + batchSize cfg) acc'
    end
  else ret (Some acc).

Definition result_of_totals (acc : Totals) : SyncResult :=
  mkSyncResult (if Nat.eqb (t_failed acc) 0 then 1 else 0)
               (t_synced acc) (t_failed acc) (t_errors acc).

Definition connectivity_error (now : Timestamp) : SyncError :=
  mkSyncError "none" "connectivity" "No internet connection" now.

Definition sync (fuel : nat) : M (option SyncResult) :=
  log LogStartSync ;;
  canConnect <- checkConnectivity ;;
  if negb canConnect then
    log LogSyncAborted ;;
    now <- new_Date ;;
    ret (Some (mkSyncResult 0 0 0 [connectivity_error now]))
  else
    items <- getPendingQueueItems ;;
    if Nat.eqb (length items) 0 then
      log LogNothingToSync ;;
      ret (Some (mkSyncResult 1 0 0 []))
    else
      acc <- sync_loop fuel items 0 (mkTotals 0 0 []) ;;
      ret (option_map result_of_totals acc).

End Service.

(** ** [TaskService] *)

(** The fields of a [Partial<Task>] that [updateTask] reads; [f_other_keys]
    names any further field present in the object. *)
Record TaskFields := mkFields {
  f_title : option string;
  f_description : option string;
  f_completed : option bool;
  f_other_keys : list string
}.

(** The argument of [createTask]; its [title] is present, as the route that
    calls it has checked. *)
Record NewTask := mkNewTask {
  n_title : string;
  n_description : option string;
  n_completed : option bool
}.

(** [a ?? b] *)
Definition nullish {A} (a : option A) (b : A) : A :=
  match a with Some v => v | None => b end.

(** [s || ''] *)
Definition or_empty (s : option string) : string :=
  match s with
  | Some EmptyString => ""
  | Some v => v
  | None => ""
  end.

(** [b ? 1 : 0] *)
Definition truthy (b : option bool) : bool :=
  match b with Some true => true | _ => false end.

(** [WHERE id = ? AND is_deleted = 0] *)
Definition visible (k : string) (t : Task) : bool :=
  String.eqb (id t) k && negb (is_deleted t).

(** [getAllTasks]: [SELECT * FROM tasks WHERE is_deleted = 0] *)
Definition getAllTasks (env : Env) : M (list Task) :=
  db_query env (fun w => filter (fun t => negb (is_deleted t)) (tasks w)).

(** [getTask]: [task || null] of the first row found. *)
Definition getTask (env : Env) (k : string) : M (option Task) :=
  db_query env (fun w => find (visible k) (tasks w)).

(** Modelled from the spec: the schema of [tasks] (db/database.ts) is not
    part of the sources; the two columns the INSERT leaves out, [server_id]
    and [last_synced_at], are null until the record is acknowledged. *)
Definition new_task_row (k : string) (data : NewTask) (now : Timestamp) : Task :=
  mkTask k (n_title data) (or_empty (n_description data))
         (truthy (n_completed data)) now now false task_pending None None.

(** [createTask] *)
Definition createTask (env : Env) (data : NewTask) : M (option Task) :=
  k <- uuidv4 env ;;
  now <- new_Date env ;;
  db_run env (set_tasks (fun ts => ts ++ [new_task_row k data now])) ;;
  getTask env k.

(** [SET title = ?, description = ?, completed = ?, updated_at = ?,
    sync_status = 'pending'], the values computed from [updates] and the
    row read before. *)
Definition apply_updates (updates : TaskFields) (existing : Task)
  (now : Timestamp) (t : Task) : Task :=
  mkTask (id t) (nullish (f_title updates) (title existing))
         (nullish (f_description updates) (description existing))
         (truthy (f_completed updates)) (created_at t) now (is_deleted t)
         task_pending (server_id t) (last_synced_at t).

(** [updateTask] *)
Definition updateTask (env : Env) (k : string) (updates : TaskFields)
  : M (option Task) :=
  existing <- getTask env k ;;
  match existing with
  | None => ret None
  | Some ex =>
      now <- new_Date env ;;
      db_run env (set_tasks (update_where id k (apply_updates updates ex now))) ;;
      getTask env k
  end.

(** [SET is_deleted = 1, sync_status = 'pending', updated_at = ?] *)
Definition soft_delete (now : Timestamp) (t : Task) : Task :=
  mkTask (id t) (title t) (description t) (completed t) (created_at t) now
         true task_pending (server_id t) (last_synced_at t).

(** [deleteTask] *)
Definition deleteTask (env : Env) (k : string) : M bool :=
  existing <- getTask env k ;;
  match existing with
  | None => ret false
  | Some _ =>
      now <- new_Date env ;;
      db_run env (set_tasks (update_where id k (soft_delete now))) ;;
      ret true
  end.

(** [SET sync_status = 'synced', server_id = ?, last_synced_at = ?] *)
Definition set_acknowledged (serverId : option string) (now : Timestamp)
  (t : Task) : Task :=
  mkTask (id t) (title t) (description t) (completed t) (created_at t)
         (updated_at t) (is_deleted t) task_synced serverId (Some now).

(** [markSynced]; [serverId] stands for [serverId ?? null]. *)
Definition markSynced (env : Env) (k : string) (serverId : option string)
  : M unit :=
  now <- new_Date env ;;
  db_run env (set_tasks (update_where id k (set_acknowledged serverId now))).

(** ** The task routes and the scheduler *)

(** The body of [POST /api/tasks] as the handler reads it. *)
Record PostBody := mkPostBody {
  b_title : option string;
  b_description : option string
}.

(** Console lines of the routes and of [startAutoSync]. *)
Inductive AppEvent :=
| LogIncomingPost (body : PostBody)
| LogRouteError (msg : string)
| LogAutoSyncStarted (intervalMs : Z)
| LogAutoSyncChecking
| LogAutoSyncOffline
| LogAutoSyncConnected
| LogAutoSyncCompleted (synced failed : nat)
| LogAutoSyncError (msg : string).

(** The process as the routes and the scheduler see it. Their own console
    lines are kept beside those of the services, each with the number of
    service lines written before it, which places it in the one stream. *)
Record App := mkApp {
  world : World;
  app_console : list (nat * AppEvent)
}.

Definition app_log (e : AppEvent) (a : App) : App :=
  mkApp (world a) (app_console a ++ [(length (console (world a)), e)]).

Definition with_world (a : App) (w : World) : App := mkApp w (app_console a).

(** What [res.status(code).json(...)] sends. *)
Inductive Payload :=
| json_tasks (ts : list Task)
| json_task (t : Task)
| json_error (error : string)
| json_message (message : string).

Record Response := mkReply {
  status_code : nat;
  payload : Payload
}.

(** [throw] of a run-time error, here the [TypeError] of reading a
    property of [null]. *)
Definition raise {A} (e : string) : M A := fun w => (Throw e, w).

(** [router.get('/test')] *)
Definition get_test (a : App) : Response * App :=
  (mkReply 200 (json_message "Task router is working!"), a).

(** [router.get('/')] *)
Definition get_tasks (env : Env) (a : App) : Response * App :=
  match getAllTasks env (world a) with
  | (Ok ts, w) => (mkReply 200 (json_tasks ts), with_world a w)
  | (Throw _, w) =>
      (mkReply 500 (json_error "Failed to fetch tasks"), with_world a w)
  end.

(** [router.get('/:id')] *)
Definition get_task (env : Env) (k : string) (a : App) : Response * App :=
  match getTask env k (world a) with
  | (Ok None, w) =>
      (mkReply 404 (json_error "Task not found"), with_world a w)
  | (Ok (Some t), w) => (mkReply 200 (json_task t), with_world a w)
  | (Throw _, w) =>
      (mkReply 500 (json_error "Failed to fetch task"), with_world a w)
  end.

(** The [try] block of [router.post('/')] once [!title] is known to be
    false; [stringify] is [JSON.stringify]. *)
Definition post_task_try (env : Env) (stringify : Task -> string)
  (title : string) (description : option string) : M Response :=
  _created_at <- new_Date env ;;
  _updated_at <- new_Date env ;;
  task <- createTask env (mkNewTask title description (Some false)) ;;
  match task with
  | None => raise "Cannot read properties of null (reading 'id')"
  | Some t =>
      addToSyncQueue env (id t) create (stringify t) ;;
      ret (mkReply 201 (json_task t))
  end.

(** [router.post('/')] *)
Definition post_task (env : Env) (stringify : Task -> string)
  (body : PostBody) (a : App) : Response * App :=
  let a1 := app_log (LogIncomingPost body) a in
  match b_title body with
  | None | Some EmptyString =>
      (mkReply 400 (json_error "Title is required"), a1)
  | Some title =>
      match post_task_try env stringify title (b_description body) (world a1) with
      | (Ok r, w) => (r, with_world a1 w)
      | (Throw e, w) =>
          (mkReply 500 (json_error "Failed to create task"),
           app_log (LogRouteError e) (with_world a1 w))
      end
  end.

(** [Object.keys(updates).length === 0] *)
Definition no_keys (updates : TaskFields) : bool :=
  match f_title updates, f_description updates, f_completed updates,
        f_other_keys updates with
  | None, None, None, [] => true
  | _, _, _, _ => false
  end.

(** [router.put('/:id')] *)
Definition put_task (env : Env) (k : string) (updates : TaskFields) (a : App)
  : Response * App :=
  if no_keys updates then
    (mkReply 400 (json_error "No update fields provided"), a)
  else
    match updateTask env k updates (world a) with
    | (Ok None, w) =>
        (mkReply 404 (json_error "Task not found"), with_world a w)
    | (Ok (Some t), w) => (mkReply 200 (json_task t), with_world a w)
    | (Throw e, w) =>
        (mkReply 500 (json_error "Failed to update task"),
         app_log (LogRouteError e) (with_world a w))
    end.

(** [router.delete('/:id')] *)
Definition delete_task (env : Env) (k : string) (a : App) : Response * App :=
  match deleteTask env k (world a) with
  | (Ok false, w) =>
      (mkReply 404 (json_error "Task not found"), with_world a w)
  | (Ok true, w) =>
      (mkReply 200 (json_message "Task deleted successfully"), with_world a w)
  | (Throw e, w) =>
      (mkReply 500 (json_error "Failed to delete task"),
       app_log (LogRouteError e) (with_world a w))
  end.

(** [runSync] of [startAutoSync]: one scheduled run, everything inside
    [try { } catch]; [None] when the cycle has not returned within [fuel]
    iterations of its loop. *)
Definition runSync (env : Env) (cfg : Config) (fuel : nat) (a : App)
  : option App :=
  let a1 := app_log LogAutoSyncChecking a in
  match checkConnectivity env (world a1) with
  | (Ok false, w) => Some (app_log LogAutoSyncOffline (with_world a1 w))
  | (Ok true, w) =>
      let a2 := app_log LogAutoSyncConnected (with_world a1 w) in
      match sync env cfg fuel (world a2) with
      | (Ok None, _) => None
      | (Ok (Some result), w') =>
          Some (app_log (LogAutoSyncCompleted (synced_items result)
                           (failed_items result)) (with_world a2 w'))
      | (Throw e, w') => Some (app_log (LogAutoSyncError e) (with_world a2 w'))
      end
  | (Throw e, w) => Some (app_log (LogAutoSyncError e) (with_world a1 w))
  end.

(** [startAutoSync]: the line announcing the worker and the immediate first
    run; every tick of the interval timer is one more [runSync]. *)
Definition startAutoSync (env : Env) (cfg : Config) (fuel : nat)
  (intervalMs : Z) (a : App) : option App :=
  runSync env cfg fuel (app_log (LogAutoSyncStarted intervalMs) a).

(** ** Notions used to state the properties *)

(** Which method wrote a console line. *)
Inductive Origin :=
| by_sync | by_addToSyncQueue | by_processBatch | by_resolveConflict
| by_updateSyncStatus | by_handleSyncError.

(** The method each console line comes from. *)
Definition origin (e : LogEvent) : Origin :=
  match e with
  | LogStartSync | LogSyncAborted | LogNothingToSync | LogBatchFailed _ => by_sync
  | LogAddedToQueue _ _ => by_addToSyncQueue
  | LogProcessingBatch _ | LogSendingBatch | LogBatchSynced
  | LogProcessBatchFailed _ => by_processBatch
  | LogClientWins _ | LogServerWins _ | LogEqualDefaultServer _
  | LogConflictResolved _ => by_resolveConflict
  | LogTaskSynced _ | LogTaskError _ | LogUpdateStatusFailed _ _ =>
      by_updateSyncStatus
  | LogPermanentFailure _ _ | LogRetryLater _ _ _ | LogRetryInfoFailed _ _ =>
      by_handleSyncError
  end.

Definition origin_eqb (a b : Origin) : bool :=
  match a, b with
  | by_sync, by_sync | by_addToSyncQueue, by_addToSyncQueue
  | by_processBatch, by_processBatch | by_resolveConflict, by_resolveConflict
  | by_updateSyncStatus, by_updateSyncStatus
  | by_handleSyncError, by_handleSyncError => true
  | _, _ => false
  end.

(** Number of console lines written by the method [o]. *)
Definition calls_of (o : Origin) (c : list LogEvent) : nat :=
  length (filter (fun e => origin_eqb (origin e) o) c).

(** The method [o] wrote nothing between [w] and [w']. *)
Definition same_calls (o : Origin) (w w' : World) : Prop :=
  calls_of o (console w') = calls_of o (console w).

(** The world in which the [try] block of [processBatch] starts. *)
Definition entered (items : list SyncQueueItem) (w : World) : World :=
  mkWorld (tasks w) (sync_queue w)
          (console w ++ [LogProcessingBatch (length items)]) (S (steps w)).

(** Every run of [m] relates the world before to the world after. *)
Definition runs (R : World -> World -> Prop) {A} (m : M A) : Prop :=
  forall w, R w (snd (m w)).

(** [m] returns normally from every world. *)
Definition safe {A} (m : M A) : Prop := forall w, exists a, fst (m w) = Ok a.

(** Consecutive groups of [n] elements; the last one may be shorter. *)
Fixpoint batches_from {A} (fuel n : nat) (l : list A) : list (list A) :=
  match fuel, l with
  | O, _ | _, [] => []
  | S fuel', _ => firstn n l :: batches_from fuel' n (skipn n l)
  end.

Definition batches {A} (n : nat) (l : list A) : list (list A) :=
  batches_from (length l) n l.

(** The loop, one [batch_step] per batch, the counters carried along. *)
Fixpoint drain (env : Env) (cfg : Config) (bs : list (list SyncQueueItem))
  (acc : Totals) : M Totals :=
  match bs with
  | [] => ret acc
  | b :: rest => acc' <- batch_step env cfg b acc ;; drain env cfg rest acc'
  end.

Definition fmap {A B} (f : A -> B) (m : M A) : M B :=
  a <- m ;; ret (f a).

(** The world once the probe has answered and the pending rows were read. *)
Definition started (w : World) : World :=
  mkWorld (tasks w) (sync_queue w) (console w ++ [LogStartSync])
          (S (S (steps w))).

(** The world after a cycle that found the server unreachable. *)
Definition aborted (w : World) : World :=
  mkWorld (tasks w) (sync_queue w)
          (console w ++ [LogStartSync; LogSyncAborted]) (S (S (steps w))).

(** The world after a cycle that found nothing pending. *)
Definition idle (w : World) : World :=
  mkWorld (tasks w) (sync_queue w)
          (console w ++ [LogStartSync; LogNothingToSync]) (S (S (steps w))).

(** Rows of [w] whose record is [spared] still have a row with the same
    [id] and [task_id] in [w']. *)
Definition kept (spared : string -> Prop) (w w' : World) : Prop :=
  forall r, In r (sync_queue w) -> spared (task_id r) ->
    exists r', In r' (sync_queue w') /\ q_id r' = q_id r /\
               task_id r' = task_id r.

(** What each batch of a cycle yields: the response of [processBatch] and
    the error entries pushed for it, the world threaded as the loop does. *)
Fixpoint cycle_outcomes (env : Env) (cfg : Config)
  (bs : list (list SyncQueueItem))
  : M (list (BatchSyncResponse * list SyncError)) :=
  match bs with
  | [] => ret []
  | b :: rest =>
      r <- processBatch env cfg b ;;
      es <- push_failed env (filter is_error (processed_items r)) [] ;;
      more <- cycle_outcomes env cfg rest ;;
      ret ((r, es) :: more)
  end.

(** ['success'] and ['error'] outcomes of one batch. *)
Definition successes (o : BatchSyncResponse * list SyncError) : nat :=
  length (filter is_success (processed_items (fst o))).

Definition failures (o : BatchSyncResponse * list SyncError) : nat :=
  length (filter is_error (processed_items (fst o))).

Definition by_created_at (a b : SyncQueueItem) : Prop :=
  q_created_at a <= q_created_at b.

Definition is_pending (r : SyncQueueItem) : bool := eqb_status (status r) pending.

(** SQLite accepts every call. *)
Definition reliable (env : Env) : Prop := forall n, db_error env n = None.

(** [n] failures recorded one after the other for the same item, as
    successive cycles do. *)
Fixpoint fail_times (env : Env) (cfg : Config) (n : nat)
  (item : SyncQueueItem) (error : string) : M unit :=
  match n with
  | O => ret tt
  | S k => handleSyncError env cfg item error ;; fail_times env cfg k item error
  end.

(** The version [resolveConflict] picks. *)
Definition winner (localTask serverTask : Task) : Task :=
  if updated_at serverTask <? updated_at localTask then localTask
  else serverTask.

(** A task row that records a successful sync. *)
Definition acknowledged (t : Task) : Prop :=
  sync_status t = task_synced /\ last_synced_at t <> None.

(** From [w] to [w'] the items [xs] were sent and marked: no queue row of
    their records is left, no pending row appeared, and their task rows are
    acknowledged. *)
Definition settled (xs : list SyncQueueItem) (w w' : World) : Prop :=
  (forall x r, In x xs -> In r (sync_queue w') -> task_id r <> task_id x) /\
  (forall r, In r (sync_queue w') -> status r = pending ->
             In r (sync_queue w)) /\
  (forall r, In r (sync_queue w') ->
             exists r0, In r0 (sync_queue w) /\ task_id r0 = task_id r) /\
  (forall x t, In x xs -> In t (tasks w') -> id t = task_id x ->
               acknowledged t) /\
  (forall k, (forall t, In t (tasks w) -> id t = k -> acknowledged t) ->
             forall t, In t (tasks w') -> id t = k -> acknowledged t).

(** Everything in a task row but [sync_status] and [last_synced_at]. *)
Definition content (t : Task) :=
  (id t, title t, description t, completed t, created_at t, updated_at t,
   is_deleted t, server_id t).

(** The task rows of [w'] are those of [w], row by row, up to
    [sync_status] and [last_synced_at]. *)
Definition same_content (w w' : World) : Prop :=
  map content (tasks w') = map content (tasks w).

(** ** Sample runs *)

Module Samples.

Definition quiet : Env :=
  mkEnv (fun n => 1000 + Z.of_nat n) (fun _ => None) (fun _ => true)
        (fun n => "u").

Definition cfg2 : Config := mkConfig 2 3.

Definition row (i t : string) (c : Z) : SyncQueueItem :=
  mkItem i t update "{}" c 0 None pending None.

Definition task (i : string) : Task :=
  mkTask i "A" "" false 0 0 false task_pending None None.

Definition w3 : World :=
  mkWorld [task "t1"; task "t2"; task "t3"]
          [row "q3" "t3" 30; row "q1" "t1" 10; row "q2" "t2" 20] [] 0.

Definition item1 : SyncQueueItem := row "q1" "t1" 10.

(** A queue holding [item1] after [n] failed attempts. *)
Definition tried (n : Z) : World :=
  mkWorld [task "t1"]
          [mkItem "q1" "t1" update "{}" 10 n None pending None] [] 0.

(** SQLite rejects the calls made at the listed interaction numbers. *)
Definition failing_at (ns : list nat) : Env :=
  mkEnv (fun n => 1000 + Z.of_nat n)
        (fun n => if existsb (Nat.eqb n) ns then Some "SQLITE_IOERR" else None)
        (fun _ => true) (fun n => "u").

Definition offline : Env :=
  mkEnv (fun n => 1000 + Z.of_nat n) (fun _ => None) (fun _ => false)
        (fun n => "u").

Definition older : Task :=
  mkTask "t1" "local title" "" false 0 100 false task_pending None None.

Definition newer : Task :=
  mkTask "t1" "server title" "" true 0 200 false task_synced (Some "s1") None.

End Samples.

Import Samples.

(** ** Computations that never throw *)

Lemma safe_ret {A} (a : A) : safe (ret a).
Proof. intros w; exists a; reflexivity. Qed.

Lemma safe_bind {A B} (m : M A) (k : A -> M B) :
  safe m -> (forall a, safe (k a)) -> safe (bind m k).
Proof.
  intros Hm Hk w. unfold bind.
  destruct (Hm w) as [a Ha]. destruct (m w) as [[a'|e] w1]; simpl in Ha.
  - apply Hk.
  - discriminate.
Qed.

Lemma safe_try_catch {A} (body : M A) (handler : string -> M A) :
  (forall e, safe (handler e)) -> safe (try_catch body handler).
Proof.
  intros Hh w. unfold try_catch.
  destruct (body w) as [[a|e] w1].
  - exists a; reflexivity.
  - apply Hh.
Qed.

Lemma safe_log e : safe (log e).
Proof. intros w; exists tt; reflexivity. Qed.

Lemma safe_new_Date env : safe (new_Date env).
Proof. intros w; eexists; reflexivity. Qed.

Lemma safe_for_each {A} (xs : list A) (body : A -> M unit) :
  (forall x, safe (body x)) -> safe (for_each xs body).
Proof.
  intros Hb. induction xs as [|x xs IH]; simpl.
  - apply safe_ret.
  - apply safe_bind; auto.
Qed.

Create HintDb safe_db.
#[export] Hint Resolve safe_ret safe_log safe_new_Date : safe_db.

Ltac safe_step :=
  first [ apply safe_try_catch; intros
        | apply safe_bind; [ | intros ]
        | apply safe_for_each; intros
        | solve [ auto with safe_db ] ].

Lemma updateSyncStatus_safe env taskId st serverId :
  safe (updateSyncStatus env taskId st serverId).
Proof. unfold updateSyncStatus. repeat safe_step. Qed.

Lemma handleSyncError_safe env cfg item error :
  safe (handleSyncError env cfg item error).
Proof. unfold handleSyncError. repeat safe_step. Qed.

#[export] Hint Resolve updateSyncStatus_safe handleSyncError_safe : safe_db.

Lemma processBatch_catch_safe env cfg items error :
  safe (processBatch_catch env cfg items error).
Proof. unfold processBatch_catch. repeat safe_step. Qed.

Lemma processBatch_safe env cfg items : safe (processBatch env cfg items).
Proof.
  unfold processBatch. repeat safe_step.
Qed.

Lemma push_failed_safe env fs errors : safe (push_failed env fs errors).
Proof.
  revert errors. induction fs as [|f fs IH]; intros errors; simpl.
  - apply safe_ret.
  - repeat safe_step.
Qed.

Lemma push_batch_errors_safe env cfg batch err errors :
  safe (push_batch_errors env cfg batch err errors).
Proof.
  revert errors. induction batch as [|x xs IH]; intros errors; simpl.
  - apply safe_ret.
  - repeat safe_step.
Qed.

#[export] Hint Resolve processBatch_safe push_failed_safe
  push_batch_errors_safe : safe_db.

Lemma batch_step_safe env cfg batch acc : safe (batch_step env cfg batch acc).
Proof. unfold batch_step. repeat safe_step. Qed.

Lemma sync_loop_safe env cfg fuel items : forall i acc,
  safe (sync_loop env cfg fuel items i acc).
Proof.
  induction fuel as [|fuel IH]; intros i acc; simpl.
  - destruct (i <? Z.of_nat (length items)); apply safe_ret.
  - destruct (i <? Z.of_nat (length items)); [|apply safe_ret].
    apply safe_bind; [apply batch_step_safe | intros; apply IH].
Qed.

(** ** Relations every step of a computation maintains *)

Lemma In_firstn {A} (n : nat) (l : list A) (x : A) :
  In x (firstn n l) -> In x l.
Proof.
  intros H. rewrite <- (firstn_skipn n l). apply in_or_app. now left.
Qed.

Lemma In_skipn {A} (n : nat) (l : list A) (x : A) :
  In x (skipn n l) -> In x l.
Proof.
  intros H. rewrite <- (firstn_skipn n l). apply in_or_app. now right.
Qed.

Lemma In_js_slice {A} (s e : Z) (l : list A) (x : A) :
  In x (js_slice s e l) -> In x l.
Proof.
  unfold js_slice. intros H.
  apply In_firstn in H. now apply In_skipn in H.
Qed.

Section Preserve.

Variable env : Env.
Variable cfg : Config.
Variable R : World -> World -> Prop.
Variable log_ok : LogEvent -> Prop.
Variable del_ok : string -> Prop.

Hypothesis R_refl : forall w, R w w.
Hypothesis R_trans : forall a b c, R a b -> R b c -> R a c.
Hypothesis R_tick : forall w, R w (tick w).
Hypothesis R_tasks : forall f w, R w (set_tasks f w).
Hypothesis R_log : forall e w, log_ok e -> R w (snd (log e w)).
Hypothesis R_update : forall k f w,
  (forall r, q_id (f r) = q_id r /\ task_id (f r) = task_id r) ->
  R w (set_queue (update_where q_id k f) w).
Hypothesis R_insert : forall r w, R w (set_queue (fun q => q ++ [r]) w).
Hypothesis R_delete : forall t w,
  del_ok t -> R w (set_queue (delete_where task_id t) w).

Lemma runs_ret {A} (a : A) : runs R (ret a).
Proof. intros w; apply R_refl. Qed.

Lemma runs_bind {A B} (m : M A) (k : A -> M B) :
  runs R m -> (forall a, runs R (k a)) -> runs R (bind m k).
Proof.
  intros Hm Hk w. unfold bind. specialize (Hm w).
  destruct (m w) as [[a|e] w1]; simpl in *.
  - eapply R_trans; [exact Hm | apply Hk].
  - exact Hm.
Qed.

Lemma runs_try_catch {A} (body : M A) (handler : string -> M A) :
  runs R body -> (forall e, runs R (handler e)) -> runs R (try_catch body handler).
Proof.
  intros Hb Hh w. unfold try_catch. specialize (Hb w).
  destruct (body w) as [[a|e] w1]; simpl in *.
  - exact Hb.
  - eapply R_trans; [exact Hb | apply Hh].
Qed.

Lemma runs_for_each {A} (xs : list A) (body : A -> M unit) :
  (forall x, In x xs -> runs R (body x)) -> runs R (for_each xs body).
Proof.
  induction xs as [|x xs IH]; intros Hb; simpl.
  - apply runs_ret.
  - apply runs_bind; [apply Hb; now left |].
    intros _. apply IH. intros y Hy. apply Hb. now right.
Qed.

Lemma runs_log e : log_ok e -> runs R (log e).
Proof. intros H w. now apply R_log. Qed.

Lemma runs_new_Date : runs R (new_Date env).
Proof. intros w. apply R_tick. Qed.

Lemma runs_uuidv4 : runs R (uuidv4 env).
Proof. intros w. apply R_tick. Qed.

Lemma runs_checkConnectivity : runs R (checkConnectivity env).
Proof. intros w. apply R_tick. Qed.

Lemma runs_db_query {A} (q : World -> A) : runs R (db_query env q).
Proof.
  intros w. unfold db_query. destruct (db_error env (steps w)); apply R_tick.
Qed.

Lemma runs_db_run stmt : (forall w, R w (stmt w)) -> runs R (db_run env stmt).
Proof.
  intros H w. unfold db_run. destruct (db_error env (steps w)); simpl.
  - apply R_tick.
  - eapply R_trans; [apply H | apply R_tick].
Qed.

Ltac runs_step :=
  first [ apply runs_ret
        | apply runs_new_Date
        | apply runs_uuidv4
        | apply runs_db_query
        | apply runs_log
        | apply runs_db_run; intros
        | apply runs_try_catch; [ | intros ]
        | apply runs_bind; [ | intros ] ].

Lemma runs_markAsSynced queueId : runs R (markAsSynced env queueId).
Proof.
  unfold markAsSynced. repeat runs_step. apply R_update. now intros r.
Qed.

Lemma runs_getPendingQueueItems : runs R (getPendingQueueItems env).
Proof. apply runs_db_query. Qed.

Lemma runs_addToSyncQueue taskId op data :
  (forall e, origin e = by_addToSyncQueue -> log_ok e) ->
  runs R (addToSyncQueue env taskId op data).
Proof.
  intros Hl. unfold addToSyncQueue. repeat runs_step.
  - apply R_insert.
  - now apply Hl.
Qed.

Lemma runs_updateSyncStatus taskId st serverId :
  (forall e, origin e = by_updateSyncStatus -> log_ok e) ->
  (st = arg_synced -> del_ok taskId) ->
  runs R (updateSyncStatus env taskId st serverId).
Proof.
  intros Hl Hd. unfold updateSyncStatus. destruct st; repeat runs_step;
    try (apply Hl; reflexivity); try apply R_tasks.
  apply R_delete. now apply Hd.
Qed.

Lemma runs_handleSyncError item error :
  (forall e, origin e = by_handleSyncError -> log_ok e) ->
  runs R (handleSyncError env cfg item error).
Proof.
  intros Hl. unfold handleSyncError. repeat runs_step.
  - apply R_update. now intros r.
  - apply Hl. now destruct (maxRetries cfg <=? _).
  - now apply Hl.
Qed.

Lemma runs_processBatch_try items :
  (forall e, origin e = by_processBatch -> log_ok e) ->
  (forall e, origin e = by_updateSyncStatus -> log_ok e) ->
  (forall x, In x items -> del_ok (task_id x)) ->
  runs R (processBatch_try env items).
Proof.
  intros Hp Hu Hd. unfold processBatch_try. repeat runs_step;
    try (apply Hp; reflexivity).
  apply runs_for_each. intros x Hx. apply runs_bind.
  - apply runs_updateSyncStatus; auto.
  - intros _. apply runs_markAsSynced.
Qed.

Lemma runs_processBatch_catch items error :
  (forall e, origin e = by_processBatch -> log_ok e) ->
  (forall e, origin e = by_updateSyncStatus -> log_ok e) ->
  (forall e, origin e = by_handleSyncError -> log_ok e) ->
  runs R (processBatch_catch env cfg items error).
Proof.
  intros Hp Hu Hh. unfold processBatch_catch. repeat runs_step;
    try (apply Hp; reflexivity).
  apply runs_for_each. intros x Hx. apply runs_bind.
  - apply runs_updateSyncStatus; auto. discriminate.
  - intros _. now apply runs_handleSyncError.
Qed.

Lemma runs_processBatch items :
  (forall e, origin e = by_processBatch -> log_ok e) ->
  (forall e, origin e = by_updateSyncStatus -> log_ok e) ->
  (forall e, origin e = by_handleSyncError -> log_ok e) ->
  (forall x, In x items -> del_ok (task_id x)) ->
  runs R (processBatch env cfg items).
Proof.
  intros Hp Hu Hh Hd. unfold processBatch.
  apply runs_bind; [apply runs_log; now apply Hp | intros _].
  apply runs_bind; [apply runs_new_Date | intros _].
  apply runs_try_catch.
  - now apply runs_processBatch_try.
  - intros e. now apply runs_processBatch_catch.
Qed.

Lemma runs_push_failed fs : forall errors, runs R (push_failed env fs errors).
Proof.
  induction fs as [|f fs IH]; intros errors; simpl.
  - apply runs_ret.
  - apply runs_bind; [apply runs_new_Date | intros; apply IH].
Qed.

Lemma runs_push_batch_errors batch err :
  (forall e, origin e = by_handleSyncError -> log_ok e) ->
  forall errors, runs R (push_batch_errors env cfg batch err errors).
Proof.
  intros Hh. induction batch as [|x xs IH]; intros errors; simpl.
  - apply runs_ret.
  - apply runs_bind; [apply runs_new_Date | intros].
    apply runs_bind; [now apply runs_handleSyncError | intros; apply IH].
Qed.

Lemma runs_batch_step batch acc :
  (forall e, origin e = by_sync -> log_ok e) ->
  (forall e, origin e = by_processBatch -> log_ok e) ->
  (forall e, origin e = by_updateSyncStatus -> log_ok e) ->
  (forall e, origin e = by_handleSyncError -> log_ok e) ->
  (forall x, In x batch -> del_ok (task_id x)) ->
  runs R (batch_step env cfg batch acc).
Proof.
  intros Hs Hp Hu Hh Hd. unfold batch_step. apply runs_try_catch.
  - apply runs_bind; [now apply runs_processBatch | intros r].
    apply runs_bind; [apply runs_push_failed | intros; apply runs_ret].
  - intros e. apply runs_bind; [apply runs_log; now apply Hs | intros _].
    apply runs_bind; [now apply runs_push_batch_errors | intros; apply runs_ret].
Qed.

Lemma runs_sync_loop fuel items :
  (forall e, origin e = by_sync -> log_ok e) ->
  (forall e, origin e = by_processBatch -> log_ok e) ->
  (forall e, origin e = by_updateSyncStatus -> log_ok e) ->
  (forall e, origin e = by_handleSyncError -> log_ok e) ->
  (forall x, In x items -> del_ok (task_id x)) ->
  forall i acc, runs R (sync_loop env cfg fuel items i acc).
Proof.
  intros Hs Hp Hu Hh Hd.
  induction fuel as [|fuel IH]; intros i acc; simpl;
    destruct (i <? Z.of_nat (length items)); try apply runs_ret.
  apply runs_bind; [| intros; apply IH].
  apply runs_batch_step; auto.
  intros x Hx. apply Hd. eapply In_js_slice; eauto.
Qed.

End Preserve.

(** ** The loop of [sync] as a walk over consecutive batches *)

Lemma bind_ext {A B} (m : M A) (k1 k2 : A -> M B) w :
  (forall a w', k1 a w' = k2 a w') -> bind m k1 w = bind m k2 w.
Proof.
  intros H. unfold bind. destruct (m w) as [[a|e] w1]; auto.
Qed.

Lemma bind_ext_run {A B} (m1 m2 : M A) (k : A -> M B) w :
  m1 w = m2 w -> bind m1 k w = bind m2 k w.
Proof. intros H. unfold bind. now rewrite H. Qed.

Lemma bind_ok {A B} (m : M A) (k : A -> M B) w a w1 :
  m w = (Ok a, w1) -> bind m k w = k a w1.
Proof. intros H. unfold bind. now rewrite H. Qed.

Lemma fmap_bind {A B C} (f : B -> C) (m : M A) (k : A -> M B) w :
  fmap f (bind m k) w = bind m (fun a => fmap f (k a)) w.
Proof.
  unfold fmap, bind. destruct (m w) as [[a|e] w1]; auto.
Qed.

Lemma js_slice_batch {A} (k : nat) (size : Z) (l : list A) :
  0 < size -> (k < length l)%nat ->
  js_slice (Z.of_nat k) (Z.of_nat k + size) l
  = firstn (Z.to_nat size) (skipn k l).
Proof.
  intros Hs Hk. unfold js_slice.
  assert (E1 : (Z.of_nat k <? 0) = false) by (apply Z.ltb_ge; lia).
  assert (E2 : (Z.of_nat k + size <? 0) = false) by (apply Z.ltb_ge; lia).
  rewrite E1, E2. clear E1 E2.
  rewrite (Z.min_l (Z.of_nat k)) by lia. rewrite Nat2Z.id.
  destruct (Z.le_gt_cases (Z.of_nat k + size) (Z.of_nat (length l))) as [Hle|Hgt].
  - rewrite Z.min_l by lia. f_equal. lia.
  - rewrite Z.min_r by lia.
    assert (Hlen : length (skipn k l) = (length l - k)%nat) by apply length_skipn.
    rewrite !firstn_all2; auto; rewrite Hlen; lia.
Qed.

Lemma batches_from_enough {A} (n : nat) : (0 < n)%nat ->
  forall fuel fuel' (l : list A),
    (length l <= fuel)%nat -> (length l <= fuel')%nat ->
    batches_from fuel n l = batches_from fuel' n l.
Proof.
  intros Hn. induction fuel as [|fuel IH]; intros fuel' l H1 H2.
  - destruct l; simpl in H1; [|lia]. now destruct fuel'.
  - destruct l as [|x l]; [now destruct fuel'|].
    destruct fuel' as [|fuel']; [simpl in H2; lia|].
    cbn [batches_from]. f_equal.
    apply IH; rewrite length_skipn; cbn [length] in *; lia.
Qed.

Lemma sync_loop_drain env cfg items :
  0 < batchSize cfg ->
  forall fuel k acc w,
    (length items - k <= fuel)%nat ->
    sync_loop env cfg fuel items (Z.of_nat k) acc w
    = fmap Some (drain env cfg
        (batches (Z.to_nat (batchSize cfg)) (skipn k items)) acc) w.
Proof.
  intros Hs. set (n := Z.to_nat (batchSize cfg)).
  assert (Hn : (0 < n)%nat) by (unfold n; lia).
  induction fuel as [|fuel IH]; intros k acc w Hf.
  - simpl. assert (E : (Z.of_nat k <? Z.of_nat (length items)) = false)
      by (apply Z.ltb_ge; lia).
    rewrite E. unfold batches.
    rewrite skipn_all2 by lia. reflexivity.
  - cbn [sync_loop].
    destruct (Z.of_nat k <? Z.of_nat (length items)) eqn:E.
    + apply Z.ltb_lt in E.
      assert (Hk : (k < length items)%nat) by lia.
      rewrite js_slice_batch by assumption. fold n.
      replace (Z.of_nat k + batchSize cfg) with (Z.of_nat (k + n))
        by (unfold n; lia).
      unfold batches.
      destruct (skipn k items) as [|x rest] eqn:Es.
      { apply (f_equal (@length _)) in Es. rewrite length_skipn in Es.
        simpl in Es. lia. }
      cbn [length batches_from drain]. rewrite <- Es.
      rewrite fmap_bind. apply bind_ext. intros acc' w1.
      rewrite IH by lia.
      rewrite skipn_skipn. replace (n + k)%nat with (k + n)%nat by lia.
      unfold batches.
      rewrite (batches_from_enough n Hn (length (skipn (k + n) items))
                 (length rest)); auto.
      apply (f_equal (@length _)) in Es. rewrite !length_skipn in *.
      simpl in Es. lia.
    + apply Z.ltb_ge in E. unfold batches.
      rewrite skipn_all2 by lia. reflexivity.
Qed.

(** With a batch size of 0 the index never moves: the loop does not end,
    whatever the number of iterations allowed. *)
Lemma sync_loop_zero_batch_size env cfg items :
  batchSize cfg = 0 -> items <> [] ->
  forall fuel acc w, fst (sync_loop env cfg fuel items 0 acc w) = Ok None.
Proof.
  intros Hz Hne.
  assert (E : (0 <? Z.of_nat (length items)) = true).
  { apply Z.ltb_lt. destruct items; [now elim Hne | cbn [length]; lia]. }
  induction fuel as [|fuel IH]; intros acc w; cbn [sync_loop]; rewrite E.
  - reflexivity.
  - rewrite Hz. cbn [Z.add]. unfold bind.
    destruct (batch_step_safe env cfg (js_slice 0 0 items) acc w) as [acc' Ha].
    destruct (batch_step env cfg (js_slice 0 0 items) acc w) as [[a|e] w1];
      cbn [fst] in Ha; [apply IH | discriminate].
Qed.

(** ** The four ways a cycle can go *)

Lemma sync_offline env cfg fuel w :
  health env (steps w) = false ->
  sync env cfg fuel w
  = (Ok (Some (mkSyncResult 0 0 0
                 [connectivity_error (wall_clock env (S (steps w)))])),
     aborted w).
Proof.
  intros H. unfold sync, bind, log, checkConnectivity, new_Date, ret, aborted.
  cbn [steps tick fst snd]. rewrite H. cbn.
  now rewrite <- app_assoc.
Qed.

Lemma sync_read_fails env cfg fuel w e :
  health env (steps w) = true ->
  db_error env (S (steps w)) = Some e ->
  sync env cfg fuel w = (Throw e, started w).
Proof.
  intros H He.
  unfold sync, bind, log, checkConnectivity, getPendingQueueItems, db_query.
  cbn [steps tick fst snd]. rewrite H. cbn [negb steps tick]. rewrite He.
  reflexivity.
Qed.

Lemma sync_nothing_pending env cfg fuel w :
  health env (steps w) = true ->
  db_error env (S (steps w)) = None ->
  pending_rows (sync_queue w) = [] ->
  sync env cfg fuel w = (Ok (Some (mkSyncResult 1 0 0 [])), idle w).
Proof.
  intros H He Hp.
  unfold sync, bind, log, checkConnectivity, getPendingQueueItems, db_query,
    ret, idle.
  cbn [steps tick fst snd]. rewrite H. cbn [negb steps tick]. rewrite He.
  cbn [sync_queue tick]. rewrite Hp. cbn.
  now rewrite <- app_assoc.
Qed.

Lemma sync_online env cfg fuel w :
  health env (steps w) = true ->
  db_error env (S (steps w)) = None ->
  pending_rows (sync_queue w) <> [] ->
  sync env cfg fuel w
  = fmap (option_map result_of_totals)
      (sync_loop env cfg fuel (pending_rows (sync_queue w)) 0
         (mkTotals 0 0 [])) (started w).
Proof.
  intros H He Hp.
  unfold sync, bind at 1 2, log, checkConnectivity.
  cbn [steps tick fst snd]. rewrite H. cbn [negb].
  unfold bind at 1, getPendingQueueItems, db_query.
  cbn [steps tick]. rewrite He. cbn [sync_queue tick tasks console steps].
  destruct (pending_rows (sync_queue w)) as [|x l] eqn:E; [now elim Hp|].
  reflexivity.
Qed.

Lemma sync_cases env cfg fuel w :
  sync env cfg fuel w
  = (Ok (Some (mkSyncResult 0 0 0
                 [connectivity_error (wall_clock env (S (steps w)))])),
     aborted w)
  \/ (exists e, sync env cfg fuel w = (Throw e, started w))
  \/ sync env cfg fuel w = (Ok (Some (mkSyncResult 1 0 0 [])), idle w)
  \/ (pending_rows (sync_queue w) <> [] /\
      sync env cfg fuel w
      = fmap (option_map result_of_totals)
          (sync_loop env cfg fuel (pending_rows (sync_queue w)) 0
             (mkTotals 0 0 [])) (started w)).
Proof.
  destruct (health env (steps w)) eqn:H.
  - destruct (db_error env (S (steps w))) as [e|] eqn:He.
    + right; left. exists e. now apply sync_read_fails.
    + destruct (pending_rows (sync_queue w)) as [|x l] eqn:Hp.
      * right; right; left. now apply sync_nothing_pending.
      * right; right; right. rewrite <- Hp.
        assert (Hne : pending_rows (sync_queue w) <> [])
          by (rewrite Hp; discriminate).
        split; [exact Hne|]. now apply sync_online.
  - left. now apply sync_offline.
Qed.

(** ** Rows under [UPDATE ... WHERE] *)

Lemma nth_error_update_where {R} (key : R -> string) k f rows n r :
  nth_error rows n = Some r ->
  nth_error (update_where key k f rows) n
  = Some (if String.eqb (key r) k then f r else r).
Proof.
  intros H. unfold update_where.
  now rewrite (map_nth_error _ _ _ H).
Qed.

Lemma select_first_update_where {R} (key : R -> string) k f rows :
  (forall r, key (f r) = key r) ->
  select_first key k (update_where key k f rows)
  = option_map f (select_first key k rows).
Proof.
  intros Hk. unfold select_first, update_where.
  induction rows as [|r rows IH]; simpl; [reflexivity|].
  destruct (String.eqb (key r) k) eqn:E.
  - rewrite Hk, E. reflexivity.
  - rewrite E. exact IH.
Qed.

Lemma eqb_false_of_neq a b : a <> b -> String.eqb a b = false.
Proof. intros H. now apply String.eqb_neq. Qed.

(** ** Recording a failure (C1) *)

(** C1, as stated, fails: [handleSyncError] resolves to [void]. A failure
    that exhausts the retries and one that does not hand back the same
    value, so nothing read from the returned value tells them apart. *)
Lemma handleSyncError_returns_no_verdict :
  let permanent := handleSyncError quiet cfg2 item1 "boom" (tried 2) in
  let transient := handleSyncError quiet cfg2 item1 "boom" (tried 0) in
  map status (sync_queue (snd permanent)) = [failed] /\
  map status (sync_queue (snd transient)) = [pending] /\
  forall verdict : Result unit -> bool,
    verdict (fst permanent) = verdict (fst transient).
Proof.
  cbv zeta. repeat split.
Qed.

(** C1, amended: for a row of the queue and storage calls that succeed,
    [handleSyncError] adds exactly one to the row's [retry_count], stores
    the message, sets [status] to [failed] when the new count reaches
    [SYNC_RETRY_ATTEMPTS] and to [pending] otherwise, leaves every other row
    and column alone, and returns nothing: the verdict goes to the console
    only. *)
Theorem handleSyncError_bookkeeping env cfg item error w row :
  select_first q_id (q_id item) (sync_queue w) = Some row ->
  db_error env (steps w) = None ->
  db_error env (S (steps w)) = None ->
  let out := handleSyncError env cfg item error w in
  let permanent := maxRetries cfg <=? retry_count row + 1 in
  fst out = Ok tt /\
  (exists row',
      select_first q_id (q_id item) (sync_queue (snd out)) = Some row' /\
      retry_count row' = retry_count row + 1 /\
      error_message row' = Some error /\
      status row' = (if permanent then failed else pending) /\
      q_id row' = q_id row /\ task_id row' = task_id row /\
      operation row' = operation row /\ data row' = data row /\
      q_created_at row' = q_created_at row /\ synced_at row' = synced_at row) /\
  (forall n r, nth_error (sync_queue w) n = Some r -> q_id r <> q_id item ->
               nth_error (sync_queue (snd out)) n = Some r) /\
  length (sync_queue (snd out)) = length (sync_queue w) /\
  tasks (snd out) = tasks w /\
  console (snd out)
  = console w ++ [if permanent
                  then LogPermanentFailure (task_id item) (retry_count row + 1)
                  else LogRetryLater (task_id item) (retry_count row + 1)
                                     (maxRetries cfg)].
Proof.
  intros Hrow H0 H1. cbv zeta.
  unfold handleSyncError, try_catch, bind, db_query, db_run, log.
  rewrite H0. cbn [tick steps sync_queue]. rewrite H1.
  rewrite Hrow. cbn [option_map or_zero].
  assert (Hz : (if retry_count row =? 0 then 0 else retry_count row)
               = retry_count row).
  { destruct (retry_count row =? 0) eqn:E; [apply Z.eqb_eq in E; lia|reflexivity]. }
  rewrite Hz. cbn [fst snd set_queue tick sync_queue tasks console steps].
  repeat split.
  - rewrite select_first_update_where by reflexivity.
    rewrite Hrow. cbn [option_map]. eexists. split; [reflexivity|].
    cbn. repeat split.
  - intros n r Hn Hne. rewrite (nth_error_update_where _ _ _ _ _ _ Hn).
    now rewrite (eqb_false_of_neq _ _ Hne).
  - unfold update_where. apply length_map.
Qed.

Lemma handleSyncError_bookkeeping_witness :
  exists row',
    select_first q_id "q1"
      (sync_queue (snd (handleSyncError quiet cfg2 item1 "boom" (tried 2))))
    = Some row' /\ retry_count row' = 3 /\ status row' = failed.
Proof.
  destruct (handleSyncError_bookkeeping quiet cfg2 item1 "boom" (tried 2)
              (mkItem "q1" "t1" update "{}" 10 2 None pending None)
              eq_refl eq_refl eq_refl)
    as (_ & (row' & Hsel & Hrc & _ & Hst & _) & _).
  exists row'. repeat split; assumption.
Defined.

(** ** Last write wins (C2) *)

(** C2: once the winner is written to [tasks], [resolveConflict] returns the
    local version when [local.updated_at] is strictly greater, the server
    version when the server's is strictly greater, and the server version
    when the two are equal. The value depends on the two versions alone. *)
Theorem resolveConflict_last_write_wins env localTask serverTask w :
  db_error env (S (steps w)) = None ->
  let out := fst (resolveConflict env localTask serverTask w) in
  (updated_at serverTask < updated_at localTask -> out = Ok localTask) /\
  (updated_at localTask < updated_at serverTask -> out = Ok serverTask) /\
  (updated_at localTask = updated_at serverTask -> out = Ok serverTask) /\
  (forall env' w', db_error env' (S (steps w')) = None ->
     fst (resolveConflict env' localTask serverTask w') = out).
Proof.
  intros Hdb. cbv zeta.
  assert (Hrun : forall env0 w0, db_error env0 (S (steps w0)) = None ->
    fst (resolveConflict env0 localTask serverTask w0)
    = Ok (if updated_at serverTask <? updated_at localTask
          then localTask else serverTask)).
  { intros env0 w0 H0.
    unfold resolveConflict, bind, new_Date, db_run, log, ret.
    destruct (updated_at serverTask <? updated_at localTask);
      [|destruct (updated_at localTask <? updated_at serverTask)];
      cbn [tick steps fst snd]; rewrite H0; reflexivity. }
  rewrite (Hrun env w Hdb). repeat split.
  - intros H. apply Z.ltb_lt in H. now rewrite H.
  - intros H. assert (E : (updated_at serverTask <? updated_at localTask) = false)
      by (apply Z.ltb_ge; lia). now rewrite E.
  - intros H. assert (E : (updated_at serverTask <? updated_at localTask) = false)
      by (apply Z.ltb_ge; lia). now rewrite E.
  - intros env' w' H'. now rewrite (Hrun env' w' H').
Qed.

Lemma resolveConflict_last_write_wins_witness :
  fst (resolveConflict quiet older newer w3) = Ok newer /\
  fst (resolveConflict quiet newer older w3) = Ok newer /\
  fst (resolveConflict quiet older older w3) = Ok older.
Proof.
  split; [|split].
  - apply (resolveConflict_last_write_wins quiet older newer w3 eq_refl).
    reflexivity.
  - apply (resolveConflict_last_write_wins quiet newer older w3 eq_refl).
    reflexivity.
  - apply (resolveConflict_last_write_wins quiet older older w3 eq_refl).
    reflexivity.
Defined.

(** ** A cycle without connectivity (C3) *)

(** C3: when the probe answers [false], [sync] returns at once with no item
    synced, none failed and a single error entry tagged [connectivity]; both
    tables are left as they were, so the pending items and every
    [retry_count] are the same before and after. *)
Theorem sync_offline_aborts env cfg fuel w :
  health env (steps w) = false ->
  let out := sync env cfg fuel w in
  (exists r e,
      fst out = Ok (Some r) /\
      success r = 0%nat /\ synced_items r = 0%nat /\ failed_items r = 0%nat /\
      errors r = [e] /\ err_operation e = "connectivity") /\
  sync_queue (snd out) = sync_queue w /\
  tasks (snd out) = tasks w /\
  pending_rows (sync_queue (snd out)) = pending_rows (sync_queue w) /\
  map retry_count (sync_queue (snd out)) = map retry_count (sync_queue w).
Proof.
  intros Hoff. cbv zeta.
  unfold sync, bind, log, checkConnectivity, new_Date, ret.
  cbn [steps tick fst snd]. rewrite Hoff. cbn.
  repeat split. do 2 eexists. repeat split.
Qed.

Lemma sync_offline_aborts_witness :
  sync_queue (snd (sync offline cfg2 5 w3)) = sync_queue w3.
Proof.
  apply (sync_offline_aborts offline cfg2 5%nat w3 eq_refl).
Defined.

(** ** Marking a row twice (C5) *)

(** C5, as stated, fails: the second [markAsSynced] writes [synced_at] again,
    with the time of the second call. *)
Lemma second_markAsSynced_moves_synced_at :
  let w1 := snd (markAsSynced quiet "q1" (tried 0)) in
  let w2 := snd (markAsSynced quiet "q1" w1) in
  map status (sync_queue w1) = [synced] /\
  map synced_at (sync_queue w1) = [Some 1000] /\
  map status (sync_queue w2) = [synced] /\
  map synced_at (sync_queue w2) = [Some 1002] /\
  map synced_at (sync_queue w2) <> map synced_at (sync_queue w1).
Proof.
  cbv zeta. repeat split. discriminate.
Qed.

(** C5, amended: [markAsSynced] sets [status = synced] and
    [synced_at = now] on every call. Called twice on the same row it leaves
    [status = synced] and [synced_at] at the time read by the second call;
    other rows are untouched, and the second call changes nothing exactly
    when the clock reads the same value as at the first call. *)
Theorem markAsSynced_twice env queueId w :
  db_error env (S (steps w)) = None ->
  db_error env (S (S (S (steps w)))) = None ->
  let w1 := snd (markAsSynced env queueId w) in
  let w2 := snd (markAsSynced env queueId w1) in
  let first_call := wall_clock env (steps w) in
  let second_call := wall_clock env (S (S (steps w))) in
  (forall n r, nth_error (sync_queue w) n = Some r -> q_id r = queueId ->
     exists r1 r2,
       nth_error (sync_queue w1) n = Some r1 /\
       nth_error (sync_queue w2) n = Some r2 /\
       status r1 = synced /\ synced_at r1 = Some first_call /\
       status r2 = synced /\ synced_at r2 = Some second_call) /\
  (forall n r, nth_error (sync_queue w) n = Some r -> q_id r <> queueId ->
     nth_error (sync_queue w1) n = Some r /\
     nth_error (sync_queue w2) n = Some r) /\
  (second_call = first_call -> sync_queue w2 = sync_queue w1).
Proof.
  intros H1 H2. cbv zeta.
  unfold markAsSynced, bind, new_Date, db_run.
  cbn [tick steps fst snd]. rewrite H1.
  cbn [tick steps set_queue fst snd sync_queue]. rewrite H2.
  cbn [tick steps set_queue fst snd sync_queue].
  split; [|split].
  - intros n r Hn Hid.
    pose proof (nth_error_update_where q_id queueId
                  (set_synced (wall_clock env (steps w))) _ _ _ Hn) as Hn1.
    rewrite Hid, String.eqb_refl in Hn1.
    pose proof (nth_error_update_where q_id queueId
                  (set_synced (wall_clock env (S (S (steps w))))) _ _ _ Hn1)
      as Hn2.
    cbn [set_synced q_id] in Hn2. rewrite Hid, String.eqb_refl in Hn2.
    do 2 eexists. split; [exact Hn1|]. split; [exact Hn2|]. repeat split.
  - intros n r Hn Hne.
    pose proof (nth_error_update_where q_id queueId
                  (set_synced (wall_clock env (steps w))) _ _ _ Hn) as Hn1.
    rewrite (eqb_false_of_neq _ _ Hne) in Hn1. split; [exact Hn1|].
    pose proof (nth_error_update_where q_id queueId
                  (set_synced (wall_clock env (S (S (steps w))))) _ _ _ Hn1)
      as Hn2.
    now rewrite (eqb_false_of_neq _ _ Hne) in Hn2.
  - intros Heq. rewrite Heq. unfold update_where. rewrite map_map.
    apply map_ext. intros r.
    destruct (String.eqb (q_id r) queueId) eqn:E.
    + cbn [set_synced q_id]. rewrite E. reflexivity.
    + rewrite E. reflexivity.
Qed.

Lemma markAsSynced_twice_witness :
  exists r2,
    nth_error (sync_queue (snd (markAsSynced quiet "q1"
                 (snd (markAsSynced quiet "q1" (tried 0)))))) 0 = Some r2 /\
    status r2 = synced /\ synced_at r2 = Some 1002.
Proof.
  destruct (markAsSynced_twice quiet "q1" (tried 0) eq_refl eq_refl)
    as (Hsame & _).
  destruct (Hsame 0%nat _ eq_refl eq_refl) as (r1 & r2 & _ & H2 & _ & _ & Hs & Ht).
  exists r2. repeat split; assumption.
Defined.

(** ** Storage errors inside the bookkeeping steps (C9) *)

(** C9, as stated, fails: SQLite rejects the task update of
    [updateSyncStatus] and the row lookup of [handleSyncError]; both return
    normally after a console line, and a cycle in which the task update is
    rejected still runs to its end and reports success. *)
Lemma storage_error_is_swallowed :
  db_error (failing_at [1%nat]) 1 = Some "SQLITE_IOERR" /\
  updateSyncStatus (failing_at [1%nat]) "t1" arg_synced None (tried 0)
  = (Ok tt, mkWorld (tasks (tried 0)) (sync_queue (tried 0))
              [LogUpdateStatusFailed "t1" "SQLITE_IOERR"] 2) /\
  handleSyncError (failing_at [0%nat]) cfg2 item1 "boom" (tried 0)
  = (Ok tt, mkWorld (tasks (tried 0)) (sync_queue (tried 0))
              [LogRetryInfoFailed "t1" "SQLITE_IOERR"] 1) /\
  fst (sync (failing_at [4%nat]) cfg2 5 (tried 0))
  = Ok (Some (mkSyncResult 1 1 0 [])).
Proof.
  repeat split.
Qed.

(** C9, amended: a storage error inside [updateSyncStatus] or
    [handleSyncError] is caught in that method, written to the console and
    not propagated. Both always return normally; when their first storage
    call is rejected they leave both tables as they were; and the loop of
    the cycle goes on: no batch step throws. *)
Theorem storage_errors_caught_locally env cfg :
  (forall taskId st serverId w,
      fst (updateSyncStatus env taskId st serverId w) = Ok tt) /\
  (forall item error w,
      fst (handleSyncError env cfg item error w) = Ok tt) /\
  (forall taskId st serverId w e,
      db_error env (S (steps w)) = Some e ->
      let w' := snd (updateSyncStatus env taskId st serverId w) in
      console w' = console w ++ [LogUpdateStatusFailed taskId e] /\
      tasks w' = tasks w /\ sync_queue w' = sync_queue w) /\
  (forall item error w e,
      db_error env (steps w) = Some e ->
      let w' := snd (handleSyncError env cfg item error w) in
      console w' = console w ++ [LogRetryInfoFailed (task_id item) e] /\
      tasks w' = tasks w /\ sync_queue w' = sync_queue w) /\
  (forall batch acc w, exists acc',
      fst (batch_step env cfg batch acc w) = Ok acc') /\
  (forall fuel items i acc w, exists r,
      fst (sync_loop env cfg fuel items i acc w) = Ok r).
Proof.
  split; [|split; [|split; [|split; [|split]]]].
  - intros taskId st serverId w.
    destruct (updateSyncStatus_safe env taskId st serverId w) as [[] H].
    exact H.
  - intros item error w.
    destruct (handleSyncError_safe env cfg item error w) as [[] H]. exact H.
  - intros taskId st serverId w e H. cbv zeta.
    unfold updateSyncStatus, try_catch, bind, new_Date, db_run, log.
    cbn [tick steps]. rewrite H. repeat split.
  - intros item error w e H. cbv zeta.
    unfold handleSyncError, try_catch, bind, db_query, log.
    rewrite H. repeat split.
  - intros batch acc w. apply batch_step_safe.
  - intros fuel items i acc w. apply sync_loop_safe.
Qed.

Lemma storage_errors_caught_locally_witness :
  console (snd (updateSyncStatus (failing_at [1%nat]) "t1" arg_synced None
                  (tried 0)))
  = [LogUpdateStatusFailed "t1" "SQLITE_IOERR"] /\
  console (snd (handleSyncError (failing_at [0%nat]) cfg2 item1 "boom"
                  (tried 0)))
  = [LogRetryInfoFailed "t1" "SQLITE_IOERR"].
Proof.
  destruct (storage_errors_caught_locally (failing_at [1%nat]) cfg2)
    as (_ & _ & Hu & _).
  destruct (storage_errors_caught_locally (failing_at [0%nat]) cfg2)
    as (_ & _ & _ & Hh & _).
  split.
  - apply (Hu "t1" arg_synced None (tried 0) "SQLITE_IOERR" eq_refl).
  - apply (Hh item1 "boom" (tried 0) "SQLITE_IOERR" eq_refl).
Defined.

(** ** Which queue rows survive (C8) *)

Lemma kept_refl spared w : kept spared w w.
Proof. intros r Hr _. now exists r. Qed.

Lemma kept_same_queue spared w w' :
  sync_queue w' = sync_queue w -> kept spared w w'.
Proof. intros E r Hr _. exists r. rewrite E. now split. Qed.

Lemma kept_trans spared a b c :
  kept spared a b -> kept spared b c -> kept spared a c.
Proof.
  intros Hab Hbc r Hr Hs.
  destruct (Hab r Hr Hs) as (r1 & H1 & Hi1 & Ht1).
  destruct (Hbc r1 H1) as (r2 & H2 & Hi2 & Ht2); [now rewrite Ht1|].
  exists r2. repeat split; congruence.
Qed.

Lemma kept_update spared k f w :
  (forall r, q_id (f r) = q_id r /\ task_id (f r) = task_id r) ->
  kept spared w (set_queue (update_where q_id k f) w).
Proof.
  intros Hf r Hr _. cbn [set_queue sync_queue].
  exists (if String.eqb (q_id r) k then f r else r). split.
  - unfold update_where.
    apply (in_map (fun r => if String.eqb (q_id r) k then f r else r)), Hr.
  - destruct (String.eqb (q_id r) k); [apply Hf | now split].
Qed.

Lemma kept_insert spared x w :
  kept spared w (set_queue (fun q => q ++ [x]) w).
Proof.
  intros r Hr _. exists r. cbn [set_queue sync_queue].
  split; [apply in_or_app; now left | now split].
Qed.

Lemma In_delete_where {R} (key : R -> string) k rows r :
  In r (delete_where key k rows) <-> In r rows /\ key r <> k.
Proof.
  unfold delete_where. rewrite filter_In, negb_true_iff, String.eqb_neq.
  reflexivity.
Qed.

Lemma kept_delete spared t w :
  ~ spared t -> kept spared w (set_queue (delete_where task_id t) w).
Proof.
  intros Ht r Hr Hs. exists r. cbn [set_queue sync_queue].
  split; [|now split].
  apply In_delete_where. split; [exact Hr|]. intros E. apply Ht. now rewrite <- E.
Qed.

Lemma map_q_id_update_where k f rows :
  (forall r, q_id (f r) = q_id r) ->
  map q_id (update_where q_id k f rows) = map q_id rows.
Proof.
  intros Hf. unfold update_where. rewrite map_map. apply map_ext.
  intros r. destruct (String.eqb (q_id r) k); [apply Hf | reflexivity].
Qed.

(** C8, as stated, fails: two pending rows reference the record [t1]; the
    batch holds the first only, and after it is processed the second, never
    sent, is gone from [sync_queue] as well. *)
Lemma pending_sibling_is_deleted :
  let q1 := row "q1" "t1" 10 in
  let q2 := row "q2" "t1" 20 in
  let w := mkWorld [task "t1"] [q1; q2] [] 0 in
  let w' := snd (processBatch quiet cfg2 [q1] w) in
  In q2 (sync_queue w) /\ status q2 = pending /\ q_id q2 <> q_id q1 /\
  sync_queue w' = [].
Proof.
  cbv zeta. repeat split.
  - right. now left.
  - discriminate.
Qed.

(** C8, amended: rows leave [sync_queue] only through
    [updateSyncStatus(taskId, 'synced')], the step [processBatch] runs for
    an item it answered ['success']: with the storage calls succeeding the
    processed item's row is deleted (its [status] column still reads
    [pending]), and rows that reference other records stay. Nothing else
    removes a row: [addToSyncQueue], [handleSyncError], [markAsSynced],
    [updateSyncStatus(taskId, 'error')] and [resolveConflict] keep every
    row, and a whole cycle keeps every row whose record has no pending item
    when the cycle starts. *)
Theorem rows_leave_queue_only_on_success env cfg :
  (forall taskId op data w r,
      In r (sync_queue w) ->
      In r (sync_queue (snd (addToSyncQueue env taskId op data w)))) /\
  (forall item error w,
      map q_id (sync_queue (snd (handleSyncError env cfg item error w)))
      = map q_id (sync_queue w)) /\
  (forall queueId w,
      map q_id (sync_queue (snd (markAsSynced env queueId w)))
      = map q_id (sync_queue w)) /\
  (forall taskId serverId w,
      sync_queue (snd (updateSyncStatus env taskId arg_error serverId w))
      = sync_queue w) /\
  (forall localTask serverTask w,
      sync_queue (snd (resolveConflict env localTask serverTask w))
      = sync_queue w) /\
  (forall taskId serverId w r,
      In r (sync_queue w) -> task_id r <> taskId ->
      In r (sync_queue (snd (updateSyncStatus env taskId arg_synced serverId w)))) /\
  (forall item serverId w,
      db_error env (S (steps w)) = None ->
      db_error env (S (S (steps w))) = None ->
      ~ In item (sync_queue
                   (snd (updateSyncStatus env (task_id item) arg_synced
                           serverId w)))) /\
  (forall fuel w r,
      In r (sync_queue w) ->
      (forall p, In p (pending_rows (sync_queue w)) -> task_id p <> task_id r) ->
      exists r', In r' (sync_queue (snd (sync env cfg fuel w))) /\
                 q_id r' = q_id r /\ task_id r' = task_id r).
Proof.
  split; [|split; [|split; [|split; [|split; [|split; [|split]]]]]].
  - intros taskId op data w r Hr.
    unfold addToSyncQueue, bind, uuidv4, new_Date, db_run, log.
    cbn [tick steps]. destruct (db_error env (S (S (steps w)))); cbn.
    + exact Hr.
    + apply in_or_app. now left.
  - intros item error w.
    unfold handleSyncError, try_catch, bind, db_query, db_run, log.
    destruct (db_error env (steps w)); cbn; [reflexivity|].
    destruct (db_error env (S (steps w))); cbn; [reflexivity|].
    now apply map_q_id_update_where.
  - intros queueId w. unfold markAsSynced, bind, new_Date, db_run.
    cbn [tick steps]. destruct (db_error env (S (steps w))); cbn; [reflexivity|].
    now apply map_q_id_update_where.
  - intros taskId serverId w.
    unfold updateSyncStatus, try_catch, bind, new_Date, db_run, log, ret.
    cbn [tick steps]. destruct (db_error env (S (steps w))); reflexivity.
  - intros localTask serverTask w.
    unfold resolveConflict, bind, new_Date, db_run, log, ret.
    destruct (updated_at serverTask <? updated_at localTask);
      [|destruct (updated_at localTask <? updated_at serverTask)];
      cbn [tick steps fst snd];
      destruct (db_error env (S (steps w))); reflexivity.
  - intros taskId serverId w r Hr Hne.
    unfold updateSyncStatus, try_catch, bind, new_Date, db_run, log.
    cbn [tick steps]. destruct (db_error env (S (steps w))); cbn; [exact Hr|].
    destruct (db_error env (S (S (steps w)))); cbn; [exact Hr|].
    apply In_delete_where. now split.
  - intros item serverId w H1 H2.
    unfold updateSyncStatus, try_catch, bind, new_Date, db_run, log.
    cbn [tick steps]. rewrite H1. cbn [tick steps set_tasks]. rewrite H2.
    cbn [fst snd tick set_queue set_tasks sync_queue].
    rewrite In_delete_where. intros [_ Hne]. now apply Hne.
  - intros fuel w r Hr Hfree.
    set (spared := fun t : string =>
           forall p, In p (pending_rows (sync_queue w)) -> task_id p <> t).
    assert (Hk : kept spared w (snd (sync env cfg fuel w))).
    { destruct (sync_cases env cfg fuel w) as [E|[[e E]|[E|[Hne E]]]];
        rewrite E; try (apply kept_same_queue; reflexivity).
      unfold fmap, bind.
      match goal with
      | |- kept _ _ (snd (let (r, w') := sync_loop ?e ?c ?f ?it ?i ?a ?w0 in _)) =>
          assert (Hloop : kept spared w0 (snd (sync_loop e c f it i a w0)));
          [| destruct (sync_loop e c f it i a w0) as [[o|err] w1];
             (eapply kept_trans; [|exact Hloop]);
             apply kept_same_queue; reflexivity ]
      end.
      apply (runs_sync_loop env cfg (kept spared) (fun _ => True)
               (fun t => ~ spared t)
               (kept_refl spared) (kept_trans spared)
               (fun w => kept_same_queue spared w _ eq_refl)
               (fun _ w => kept_same_queue spared w _ eq_refl)
               (fun _ w _ => kept_same_queue spared w _ eq_refl)
               (kept_update spared) (kept_delete spared)); auto.
      intros x Hx Hsp. exact (Hsp x Hx eq_refl). }
    exact (Hk r Hr Hfree).
Qed.

Lemma rows_leave_queue_only_on_success_witness :
  In (row "q2" "t2" 20)
     (sync_queue (snd (updateSyncStatus quiet "t1" arg_synced None w3))).
Proof.
  destruct (rows_leave_queue_only_on_success quiet cfg2)
    as (_ & _ & _ & _ & _ & Hother & _).
  apply Hother.
  - cbn. right. right. now left.
  - discriminate.
Defined.

(** ** The result of a cycle (C4) *)

Lemma push_failed_entries env fs : forall errors w,
  exists es w',
    push_failed env fs errors w = (Ok (errors ++ es), w') /\
    push_failed env fs [] w = (Ok es, w') /\
    map err_task_id es = map client_id fs /\
    map err_error es = map (fun f => error_text (p_error f)) fs /\
    Forall (fun e => err_operation e = "sync") es.
Proof.
  induction fs as [|f fs IH]; intros errors w.
  - exists [], w. cbn. rewrite app_nil_r. repeat split. constructor.
  - cbn [push_failed]. unfold bind, new_Date.
    set (e := mkSyncError (client_id f) "sync" (error_text (p_error f))
                (wall_clock env (steps w))).
    destruct (IH (errors ++ [e]) (tick w)) as (es & w' & H1 & H2 & H3 & H4 & H5).
    destruct (IH ([] ++ [e]) (tick w)) as (es' & w'' & H1' & H2' & _).
    rewrite H2 in H2'. inversion H2'; subst es' w''.
    exists (e :: es), w'. rewrite H1, H1'. cbn [app map].
    rewrite <- app_assoc. cbn [app]. subst e.
    cbn [err_task_id err_error]. rewrite H3, H4. repeat split.
    constructor; [reflexivity | exact H5].
Qed.

Lemma batch_step_outcome env cfg b acc w :
  exists r es w1 w2,
    processBatch env cfg b w = (Ok r, w1) /\
    push_failed env (filter is_error (processed_items r)) [] w1 = (Ok es, w2) /\
    map err_task_id es = map client_id (filter is_error (processed_items r)) /\
    batch_step env cfg b acc w
    = (Ok (mkTotals (t_synced acc + length (filter is_success (processed_items r)))
                    (t_failed acc + length (filter is_error (processed_items r)))
                    (t_errors acc ++ es)), w2).
Proof.
  destruct (processBatch_safe env cfg b w) as [r Hr].
  destruct (processBatch env cfg b w) as [r0 w1] eqn:E. cbn in Hr. subst r0.
  destruct (push_failed_entries env (filter is_error (processed_items r))
              (t_errors acc) w1) as (es & w2 & H1 & H2 & H3 & _).
  exists r, es, w1, w2. repeat split; auto.
  unfold batch_step, try_catch, bind. rewrite E, H1. reflexivity.
Qed.

Lemma drain_outcomes env cfg bs : forall acc w,
  exists outs w',
    cycle_outcomes env cfg bs w = (Ok outs, w') /\
    Forall (fun o => map err_task_id (snd o)
                     = map client_id (filter is_error (processed_items (fst o))))
           outs /\
    length outs = length bs /\
    drain env cfg bs acc w
    = (Ok (mkTotals (t_synced acc + list_sum (map successes outs))
                    (t_failed acc + list_sum (map failures outs))
                    (t_errors acc ++ concat (map snd outs))), w').
Proof.
  induction bs as [|b bs IH]; intros acc w.
  - exists [], w. cbn. rewrite !Nat.add_0_r, app_nil_r.
    destruct acc. repeat split. constructor.
  - destruct (batch_step_outcome env cfg b acc w)
      as (r & es & w1 & w2 & Hr & He & Hids & Hstep).
    destruct (IH (mkTotals
                    (t_synced acc + length (filter is_success (processed_items r)))
                    (t_failed acc + length (filter is_error (processed_items r)))
                    (t_errors acc ++ es)) w2)
      as (outs & w' & Hc & Hf & Hl & Hd).
    exists ((r, es) :: outs), w'.
    cbn [cycle_outcomes drain].
    rewrite (bind_ok _ _ _ _ _ Hr), (bind_ok _ _ _ _ _ He),
      (bind_ok _ _ _ _ _ Hc), (bind_ok _ _ _ _ _ Hstep), Hd.
    unfold ret.
    cbn [t_synced t_failed t_errors map concat list_sum successes failures
         fst snd length].
    unfold list_sum. cbn [fold_right].
    unfold successes at 1, failures at 1. cbn [fst].
    rewrite !Nat.add_assoc, <- app_assoc.
    repeat split; [constructor; [exact Hids | exact Hf] | now rewrite Hl ].
Qed.

(** C4: a cycle that gets past the probe and the read of the pending rows
    runs to its end and returns a result whose [success] is 1 exactly when
    no item failed, whose [synced_items] and [failed_items] are the sums over
    the batches of the ['success'] and ['error'] outcomes, and whose [errors]
    are the entries of the batches, in batch order, one per ['error']
    outcome. *)
Theorem sync_result_totals env cfg fuel w :
  0 < batchSize cfg ->
  health env (steps w) = true ->
  db_error env (S (steps w)) = None ->
  (length (pending_rows (sync_queue w)) <= fuel)%nat ->
  exists res outs,
    fst (sync env cfg fuel w) = Ok (Some res) /\
    fst (cycle_outcomes env cfg
           (batches (Z.to_nat (batchSize cfg)) (pending_rows (sync_queue w)))
           (started w)) = Ok outs /\
    synced_items res = list_sum (map successes outs) /\
    failed_items res = list_sum (map failures outs) /\
    errors res = concat (map snd outs) /\
    Forall (fun o => map err_task_id (snd o)
                     = map client_id (filter is_error (processed_items (fst o))))
           outs /\
    (success res = 1%nat <-> failed_items res = 0%nat) /\
    (success res = 0%nat <-> failed_items res <> 0%nat).
Proof.
  intros Hs Hh Hdb Hfuel.
  destruct (pending_rows (sync_queue w)) as [|x l] eqn:Hp.
  - rewrite (sync_nothing_pending env cfg fuel w Hh Hdb Hp).
    exists (mkSyncResult 1 0 0 []), []. cbn.
    repeat split; auto; try discriminate. intros H; now elim H.
  - rewrite <- Hp in *.
    assert (Hne : pending_rows (sync_queue w) <> [])
      by (rewrite Hp; discriminate).
    rewrite (sync_online env cfg fuel w Hh Hdb Hne).
    unfold fmap, bind.
    change 0 with (Z.of_nat 0).
    rewrite (sync_loop_drain env cfg _ Hs fuel 0%nat) by lia.
    cbn [skipn]. unfold fmap, bind.
    destruct (drain_outcomes env cfg
                (batches (Z.to_nat (batchSize cfg))
                   (pending_rows (sync_queue w)))
                (mkTotals 0 0 []) (started w))
      as (outs & w' & Hc & Hf & _ & Hd).
    rewrite Hd, Hc. cbn [fst ret option_map result_of_totals t_synced t_failed
                         t_errors app Nat.add].
    eexists. exists outs. split; [reflexivity|].
    cbn [synced_items failed_items errors success].
    repeat split; auto;
      unfold result_of_totals; cbn [success failed_items t_failed];
      destruct (list_sum (map failures outs)); cbn; auto; try discriminate.
    intros H; now elim H.
Qed.

Lemma sync_result_totals_witness :
  exists res, fst (sync quiet cfg2 5 w3) = Ok (Some res) /\
              synced_items res = 3%nat /\ success res = 1%nat.
Proof.
  destruct (sync_result_totals quiet cfg2 5%nat w3)
    as (res & outs & Hr & Ho & Hs & Hf & _ & _ & Hok & _);
    [reflexivity | reflexivity | reflexivity | cbn; lia |].
  exists res. split; [exact Hr|].
  vm_compute in Ho. inversion Ho; subst outs. clear Ho.
  split; [exact Hs | apply Hok; exact Hf].
Defined.

(** ** Order of the pending rows and the batches (C6) *)

Lemma is_pending_iff r : is_pending r = true <-> status r = pending.
Proof. unfold is_pending. destruct (status r); cbn; split; congruence. Qed.

Lemma insert_by_created_at_perm x l :
  Permutation (insert_by_created_at x l) (x :: l).
Proof.
  induction l as [|y l IH]; cbn; [apply Permutation_refl|].
  destruct (q_created_at x <=? q_created_at y); [apply Permutation_refl|].
  eapply perm_trans; [apply perm_skip, IH | apply perm_swap].
Qed.

Lemma order_by_created_at_perm l : Permutation (order_by_created_at l) l.
Proof.
  induction l as [|x l IH]; cbn; [constructor|].
  eapply perm_trans; [apply insert_by_created_at_perm | now apply perm_skip].
Qed.

Lemma insert_by_created_at_sorted x l :
  Sorted by_created_at l -> Sorted by_created_at (insert_by_created_at x l).
Proof.
  induction l as [|y l IH]; intros Hs; cbn.
  - repeat constructor.
  - destruct (q_created_at x <=? q_created_at y) eqn:E.
    + constructor; [exact Hs|]. constructor. unfold by_created_at.
      now apply Z.leb_le.
    + apply Z.leb_gt in E. inversion Hs as [|? ? Hl Hh]; subst.
      constructor; [now apply IH|].
      destruct l as [|z l]; cbn.
      * constructor. unfold by_created_at. lia.
      * destruct (q_created_at x <=? q_created_at z).
        -- constructor. unfold by_created_at. lia.
        -- constructor. now inversion Hh.
Qed.

Lemma order_by_created_at_sorted l : Sorted by_created_at (order_by_created_at l).
Proof.
  induction l as [|x l IH]; cbn; [constructor|].
  now apply insert_by_created_at_sorted.
Qed.

Lemma concat_batches_from {A} n : (0 < n)%nat ->
  forall fuel (l : list A), (length l <= fuel)%nat ->
    concat (batches_from fuel n l) = l.
Proof.
  intros Hn. induction fuel as [|fuel IH]; intros l Hl.
  - destruct l; [reflexivity | cbn in Hl; lia].
  - destruct l as [|x l]; [reflexivity|].
    cbn [batches_from concat]. rewrite IH.
    + apply firstn_skipn.
    + rewrite length_skipn. cbn [length] in *. lia.
Qed.

Lemma batches_from_sizes {A} n : (0 < n)%nat ->
  forall fuel (l : list A),
    Forall (fun b => (0 < length b <= n)%nat) (batches_from fuel n l).
Proof.
  intros Hn. induction fuel as [|fuel IH]; intros l; [constructor|].
  destruct l as [|x l]; [constructor|].
  cbn [batches_from]. constructor; [|apply IH].
  rewrite length_firstn. cbn [length]. lia.
Qed.

(** C6, as stated, fails: two pending rows were created in the same
    millisecond and the one stored first has the greater [id]; the query
    returns them in stored order, not by [id]. *)
Lemma equal_created_at_not_ordered_by_id :
  let first_stored := row "q2" "t1" 10 in
  let second_stored := row "q1" "t2" 10 in
  q_created_at first_stored = q_created_at second_stored /\
  String.compare (q_id second_stored) (q_id first_stored) = Lt /\
  pending_rows [first_stored; second_stored] = [first_stored; second_stored].
Proof.
  cbv zeta. repeat split.
Qed.

(** C6, amended: [getPendingQueueItems] returns exactly the rows with
    [status = pending], in ascending [created_at] (the query has no second
    key: ties are not ordered by [id]); [sync] walks them in consecutive,
    non-empty batches of at most [SYNC_BATCH_SIZE] rows that together are
    the pending rows in that order; with three rows of increasing
    [created_at] and a batch size of 2 the first batch is the two oldest
    rows, oldest first. *)
Theorem pending_rows_ordered_and_batched cfg q :
  0 < batchSize cfg ->
  let items := pending_rows q in
  let n := Z.to_nat (batchSize cfg) in
  (forall r, In r items <-> In r q /\ status r = pending) /\
  Permutation items (filter is_pending q) /\
  Sorted by_created_at items /\
  concat (batches n items) = items /\
  Forall (fun b => (0 < length b <= n)%nat) (batches n items) /\
  (forall env fuel w,
      sync_queue w = q -> items <> [] ->
      health env (steps w) = true -> db_error env (S (steps w)) = None ->
      (length items <= fuel)%nat ->
      sync env cfg fuel w
      = fmap (option_map result_of_totals)
          (fmap Some (drain env cfg (batches n items) (mkTotals 0 0 [])))
          (started w)) /\
  (forall a b c,
      q = [a; b; c] -> batchSize cfg = 2 ->
      status a = pending -> status b = pending -> status c = pending ->
      q_created_at a < q_created_at b -> q_created_at b < q_created_at c ->
      items = [a; b; c] /\
      js_slice 0 (0 + batchSize cfg) items = [a; b] /\
      batches n items = [[a; b]; [c]]).
Proof.
  intros Hs. cbv zeta.
  assert (Hn : (0 < Z.to_nat (batchSize cfg))%nat) by lia.
  assert (Hperm : Permutation (pending_rows q) (filter is_pending q))
    by apply order_by_created_at_perm.
  split; [|split; [|split; [|split; [|split; [|split]]]]].
  - intros r. rewrite <- is_pending_iff, <- filter_In. split; intros H.
    + eapply Permutation_in; [exact Hperm | exact H].
    + eapply Permutation_in; [apply Permutation_sym, Hperm | exact H].
  - exact Hperm.
  - apply order_by_created_at_sorted.
  - apply concat_batches_from; auto.
  - apply batches_from_sizes; auto.
  - intros env fuel w Hq Hne Hh Hdb Hfuel. subst q.
    rewrite (sync_online env cfg fuel w Hh Hdb Hne).
    unfold fmap at 1 3. apply bind_ext_run.
    change 0 with (Z.of_nat 0).
    rewrite (sync_loop_drain env cfg _ Hs fuel 0%nat) by lia.
    reflexivity.
  - intros a b c Hq Hb Ha Hsb Hc Hab Hbc. subst q.
    assert (Hrows : pending_rows [a; b; c] = [a; b; c]).
    { unfold pending_rows. cbn [filter]. unfold eqb_status.
      rewrite Ha, Hsb, Hc. cbn [order_by_created_at fold_right
                                  insert_by_created_at].
      assert (E1 : (q_created_at b <=? q_created_at c) = true)
        by (apply Z.leb_le; lia).
      rewrite E1. cbn [insert_by_created_at].
      assert (E2 : (q_created_at a <=? q_created_at b) = true)
        by (apply Z.leb_le; lia).
      now rewrite E2. }
    rewrite Hrows, Hb. repeat split.
Qed.

Lemma pending_rows_ordered_and_batched_witness :
  batches 2 (pending_rows
               [row "q1" "t1" 10; row "q2" "t2" 20; row "q3" "t3" 30])
  = [[row "q1" "t1" 10; row "q2" "t2" 20]; [row "q3" "t3" 30]].
Proof.
  destruct (pending_rows_ordered_and_batched cfg2
              [row "q1" "t1" 10; row "q2" "t2" 20; row "q3" "t3" 30] eq_refl)
    as (_ & _ & _ & _ & _ & _ & Hthree).
  destruct (Hthree _ _ _ eq_refl eq_refl eq_refl eq_refl eq_refl eq_refl eq_refl)
    as (_ & _ & Hb).
  exact Hb.
Defined.

(** ** Counting calls on the console *)

Lemma origin_eqb_neq a b : a <> b -> origin_eqb a b = false.
Proof. destruct a, b; cbn; congruence. Qed.

Lemma calls_of_snoc o c e :
  calls_of o (c ++ [e])
  = (calls_of o c + if origin_eqb (origin e) o then 1 else 0)%nat.
Proof.
  unfold calls_of. rewrite filter_app, length_app. cbn.
  now destruct (origin_eqb (origin e) o).
Qed.

Section Calls.

Variable o : Origin.

Lemma same_calls_refl w : same_calls o w w.
Proof. reflexivity. Qed.

Lemma same_calls_trans a b c :
  same_calls o a b -> same_calls o b c -> same_calls o a c.
Proof. unfold same_calls. congruence. Qed.

Lemma same_calls_console w w' : console w' = console w -> same_calls o w w'.
Proof. unfold same_calls. now intros ->. Qed.

Lemma same_calls_log e w : origin e <> o -> same_calls o w (snd (log e w)).
Proof.
  intros H. unfold same_calls, log. cbn [snd console]. rewrite calls_of_snoc.
  rewrite (origin_eqb_neq _ _ H). lia.
Qed.

End Calls.

Ltac same_calls_side :=
  first [ exact (same_calls_refl _)
        | exact (same_calls_trans _)
        | exact (same_calls_log _)
        | solve [ intros; apply same_calls_console; reflexivity ]
        | solve [ intros; exact I ]
        | let e := fresh "e" in
          let He := fresh "He" in
          let Ho := fresh "Ho" in
          intros e He Ho; rewrite He in Ho; congruence ].

Lemma same_calls_updateSyncStatus o env taskId st serverId w :
  o <> by_updateSyncStatus ->
  same_calls o w (snd (updateSyncStatus env taskId st serverId w)).
Proof.
  intros H.
  apply runs_updateSyncStatus
    with (log_ok := fun e => origin e <> o) (del_ok := fun _ => True);
    same_calls_side.
Qed.

Lemma same_calls_processBatch_try o env items w :
  o <> by_processBatch -> o <> by_updateSyncStatus ->
  same_calls o w (snd (processBatch_try env items w)).
Proof.
  intros H1 H2.
  apply runs_processBatch_try
    with (log_ok := fun e => origin e <> o) (del_ok := fun _ => True);
    same_calls_side.
Qed.

Lemma same_calls_push_failed o env fs errors w :
  same_calls o w (snd (push_failed env fs errors w)).
Proof. apply runs_push_failed; same_calls_side. Qed.

Lemma same_calls_sync_loop o env cfg fuel items i acc w :
  o <> by_sync -> o <> by_processBatch -> o <> by_updateSyncStatus ->
  o <> by_handleSyncError ->
  same_calls o w (snd (sync_loop env cfg fuel items i acc w)).
Proof.
  intros H1 H2 H3 H4.
  apply runs_sync_loop
    with (log_ok := fun e => origin e <> o) (del_ok := fun _ => True);
    same_calls_side.
Qed.

Lemma same_calls_sync o env cfg fuel w :
  o <> by_sync -> o <> by_processBatch -> o <> by_updateSyncStatus ->
  o <> by_handleSyncError ->
  same_calls o w (snd (sync env cfg fuel w)).
Proof.
  intros H1 H2 H3 H4.
  assert (Hlog : forall c e, origin e = by_sync ->
            calls_of o (c ++ [e]) = calls_of o c).
  { intros c e He. rewrite calls_of_snoc, origin_eqb_neq; [lia|].
    rewrite He. congruence. }
  assert (Hstart : same_calls o w (started w)).
  { unfold same_calls, started. cbn [console]. now apply Hlog. }
  destruct (sync_cases env cfg fuel w) as [E|[[e E]|[E|[Hne E]]]]; rewrite E.
  - unfold same_calls, aborted. cbn [snd console].
    change [LogStartSync; LogSyncAborted] with ([LogStartSync] ++ [LogSyncAborted]).
    rewrite app_assoc, !Hlog; reflexivity.
  - exact Hstart.
  - unfold same_calls, idle. cbn [snd console].
    change [LogStartSync; LogNothingToSync]
      with ([LogStartSync] ++ [LogNothingToSync]).
    rewrite app_assoc, !Hlog; reflexivity.
  - unfold fmap, bind.
    pose proof (same_calls_sync_loop o env cfg fuel
                  (pending_rows (sync_queue w)) 0 (mkTotals 0 0 [])
                  (started w) H1 H2 H3 H4) as Hloop.
    destruct (sync_loop env cfg fuel (pending_rows (sync_queue w)) 0
                (mkTotals 0 0 []) (started w)) as [[r|err] w1];
      cbn [snd ret] in *; eapply same_calls_trans; eauto.
Qed.

(** ** A batch whose processing raises (C7) and one that does not (C10) *)

Lemma processBatch_entered env cfg items w :
  processBatch env cfg items w
  = try_catch (processBatch_try env items) (processBatch_catch env cfg items)
      (entered items w).
Proof. reflexivity. Qed.

Lemma processBatch_try_result env items w :
  (exists e, fst (processBatch_try env items w) = Throw e) \/
  fst (processBatch_try env items w) = Ok (mkResponse (map success_outcome items)).
Proof.
  unfold processBatch_try, bind, log, ret.
  match goal with
  | |- context [for_each items ?body ?w0] =>
      destruct (for_each items body w0) as [[[]|e] w1]
  end; cbn [fst]; [now right | left; now exists e].
Qed.

Lemma handleSyncError_logs_once env cfg item error w :
  calls_of by_handleSyncError (console (snd (handleSyncError env cfg item error w)))
  = S (calls_of by_handleSyncError (console w)).
Proof.
  unfold handleSyncError, try_catch, bind, db_query, db_run, log.
  destruct (db_error env (steps w)); cbn [tick steps snd console].
  - rewrite calls_of_snoc. cbn. lia.
  - destruct (db_error env (S (steps w))); cbn [tick steps snd console set_queue].
    + rewrite calls_of_snoc. cbn. lia.
    + rewrite calls_of_snoc.
      match goal with |- context [if ?c then LogPermanentFailure _ _ else _] =>
        destruct c end; cbn; lia.
Qed.

Lemma catch_loop_calls env cfg error items : forall w,
  exists w',
    for_each items (fun item =>
      updateSyncStatus env (task_id item) arg_error None ;;
      handleSyncError env cfg item error) w = (Ok tt, w') /\
    calls_of by_handleSyncError (console w')
    = (calls_of by_handleSyncError (console w) + length items)%nat.
Proof.
  induction items as [|x xs IH]; intros w.
  - exists w. cbn. split; [reflexivity | lia].
  - cbn [for_each length].
    pose proof (same_calls_updateSyncStatus by_handleSyncError env (task_id x)
                  arg_error None w ltac:(discriminate)) as Hu.
    destruct (updateSyncStatus_safe env (task_id x) arg_error None w) as [[] Eu].
    destruct (updateSyncStatus env (task_id x) arg_error None w) as [ru w1] eqn:E1.
    cbn [fst snd] in *. subst ru.
    pose proof (handleSyncError_logs_once env cfg x error w1) as Hh.
    destruct (handleSyncError_safe env cfg x error w1) as [[] Eh].
    destruct (handleSyncError env cfg x error w1) as [rh w2] eqn:E2.
    cbn [fst snd] in *. subst rh.
    destruct (IH w2) as (w' & Hrun & Hcount).
    exists w'. split.
    + unfold bind at 1. unfold bind at 1. rewrite E1, E2. exact Hrun.
    + rewrite Hcount, Hh. unfold same_calls in Hu. rewrite Hu. lia.
Qed.

Lemma processBatch_catch_result env cfg items error w :
  exists w',
    processBatch_catch env cfg items error w
    = (Ok (mkResponse (map (error_outcome error) items)), w') /\
    calls_of by_handleSyncError (console w')
    = (calls_of by_handleSyncError (console w) + length items)%nat.
Proof.
  unfold processBatch_catch, bind at 1, log.
  match goal with |- context [bind _ _ ?w0] =>
    destruct (catch_loop_calls env cfg error items w0) as (w' & Hrun & Hc)
  end.
  exists w'. rewrite (bind_ok _ _ _ _ _ Hrun). split; [reflexivity|].
  rewrite Hc. cbn [console]. rewrite calls_of_snoc. cbn. lia.
Qed.

Lemma filter_error_outcomes e items :
  filter is_error (map (error_outcome e) items) = map (error_outcome e) items /\
  filter is_success (map (error_outcome e) items) = [].
Proof.
  induction items as [|x xs [IH1 IH2]]; cbn; [now split|].
  now rewrite IH1, IH2.
Qed.

(** C7: when the sending block of [processBatch] raises for a batch, every
    item of the batch is answered ['error']: the batch adds its length to the
    failed count and nothing to the synced count, [handleSyncError] runs once
    per item, one error entry per item is appended in batch order, and the
    loop goes on with the next batch. The request itself is a simulated
    delay, so what raises in the sending block is the marking that follows
    it. *)
Theorem batch_failure_fails_every_item env cfg batch acc w e w1 :
  processBatch_try env batch (entered batch w) = (Throw e, w1) ->
  exists acc' w' es,
    batch_step env cfg batch acc w = (Ok acc', w') /\
    fst (processBatch env cfg batch w)
    = Ok (mkResponse (map (error_outcome e) batch)) /\
    t_synced acc' = t_synced acc /\
    t_failed acc' = (t_failed acc + length batch)%nat /\
    t_errors acc' = t_errors acc ++ es /\
    map err_task_id es = map q_id batch /\
    map err_error es = map (fun _ => error_text (Some e)) batch /\
    calls_of by_handleSyncError (console w')
    = (calls_of by_handleSyncError (console w) + length batch)%nat /\
    (forall fuel items i,
        i < Z.of_nat (length items) ->
        js_slice i (i + batchSize cfg) items = batch ->
        sync_loop env cfg (S fuel) items i acc w
        = sync_loop env cfg fuel items (i + batchSize cfg) acc' w').
Proof.
  intros Htry.
  destruct (processBatch_catch_result env cfg batch e w1) as (w2 & Hcatch & Hc2).
  assert (Hpb : processBatch env cfg batch w
                = (Ok (mkResponse (map (error_outcome e) batch)), w2)).
  { rewrite processBatch_entered. unfold try_catch. now rewrite Htry. }
  destruct (filter_error_outcomes e batch) as [Ferr Fok].
  destruct (push_failed_entries env (map (error_outcome e) batch)
              (t_errors acc) w2) as (es & w3 & Hp & Hp0 & Hids & Herrs & _).
  assert (Hstep : batch_step env cfg batch acc w
                  = (Ok (mkTotals (t_synced acc + 0)
                                  (t_failed acc + length batch)
                                  (t_errors acc ++ es)), w3)).
  { unfold batch_step, try_catch.
    rewrite (bind_ok _ _ _ _ _ Hpb). cbn [processed_items].
    rewrite Ferr, Fok, (bind_ok _ _ _ _ _ Hp), length_map. reflexivity. }
  exists (mkTotals (t_synced acc + 0) (t_failed acc + length batch)
                   (t_errors acc ++ es)), w3, es.
  cbn [t_synced t_failed t_errors].
  split; [exact Hstep|]. split; [now rewrite Hpb|].
  split; [lia|]. split; [reflexivity|]. split; [reflexivity|].
  split; [now rewrite Hids, map_map|].
  split; [now rewrite Herrs, map_map|].
  split.
  - pose proof (same_calls_push_failed by_handleSyncError env
                  (map (error_outcome e) batch) (t_errors acc) w2) as Hpf.
    rewrite Hp in Hpf. unfold same_calls in Hpf. cbn [snd] in Hpf.
    rewrite Hpf, Hc2.
    pose proof (same_calls_processBatch_try by_handleSyncError env batch
                  (entered batch w) ltac:(discriminate) ltac:(discriminate))
      as Ht.
    rewrite Htry in Ht. unfold same_calls in Ht. cbn [snd] in Ht.
    rewrite Ht. unfold entered. cbn [console]. rewrite calls_of_snoc. cbn. lia.
  - intros fuel items i Hi Hslice. cbn [sync_loop].
    apply Z.ltb_lt in Hi. rewrite Hi, Hslice.
    now rewrite (bind_ok _ _ _ _ _ Hstep).
Qed.

Lemma batch_failure_fails_every_item_witness :
  exists acc' w',
    batch_step (failing_at [5%nat]) cfg2 [item1] (mkTotals 0 0 []) (tried 0)
    = (Ok acc', w') /\
    t_failed acc' = 1%nat /\ map err_task_id (t_errors acc') = ["q1"].
Proof.
  destruct (batch_failure_fails_every_item (failing_at [5%nat]) cfg2 [item1]
              (mkTotals 0 0 []) (tried 0) "SQLITE_IOERR"
              (snd (processBatch_try (failing_at [5%nat]) [item1]
                      (entered [item1] (tried 0)))) eq_refl)
    as (acc' & w' & es & Hstep & _ & _ & Hf & He & Hids & _).
  exists acc', w'. split; [exact Hstep|]. split; [exact Hf|].
  rewrite He. exact Hids.
Defined.

(** C10: when nothing raises inside the sending block, [processBatch]
    answers ['success'] for every item of the batch, in order; no console
    line of [resolveConflict] appears during any cycle, and a call of
    [resolveConflict] always leaves at least one, so no cycle ever calls
    it. *)
Theorem processBatch_answers_success env cfg items w :
  (forall e, fst (processBatch_try env items (entered items w)) <> Throw e) ->
  fst (processBatch env cfg items w)
  = Ok (mkResponse (map success_outcome items)) /\
  map client_id (map success_outcome items) = map q_id items /\
  Forall (fun p => p_status p = success_status) (map success_outcome items) /\
  (forall fuel w0,
      calls_of by_resolveConflict (console (snd (sync env cfg fuel w0)))
      = calls_of by_resolveConflict (console w0)) /\
  (forall localTask serverTask w0,
      (calls_of by_resolveConflict (console w0)
       < calls_of by_resolveConflict
           (console (snd (resolveConflict env localTask serverTask w0))))%nat).
Proof.
  intros Hno. split; [|split; [|split; [|split]]].
  - rewrite processBatch_entered. unfold try_catch.
    destruct (processBatch_try_result env items (entered items w)) as [[e He]|Hok].
    + now elim (Hno e).
    + destruct (processBatch_try env items (entered items w)) as [[r|e] w1];
        cbn [fst] in *; [exact Hok | discriminate].
  - rewrite map_map. reflexivity.
  - apply Forall_forall. intros p Hp. apply in_map_iff in Hp.
    destruct Hp as (x & <- & _). reflexivity.
  - intros fuel w0. apply same_calls_sync; discriminate.
  - intros localTask serverTask w0.
    unfold resolveConflict, bind, new_Date, db_run, log, ret.
    destruct (updated_at serverTask <? updated_at localTask);
      [|destruct (updated_at localTask <? updated_at serverTask)];
      cbn [tick steps fst snd console];
      destruct (db_error env (S (steps w0)));
      cbn [tick steps fst snd console set_tasks];
      rewrite ?calls_of_snoc; cbn; lia.
Qed.

Lemma processBatch_answers_success_witness :
  fst (processBatch quiet cfg2 [item1] (tried 0))
  = Ok (mkResponse [mkProcessed "q1" "t1" success_status None]).
Proof.
  apply (processBatch_answers_success quiet cfg2 [item1] (tried 0)).
  intros e. discriminate.
Defined.

(** ** Further properties of [SyncService] *)

Lemma handleSyncError_run env cfg item error w :
  db_error env (steps w) = None ->
  db_error env (S (steps w)) = None ->
  let retryCount :=
    or_zero (option_map retry_count
               (select_first q_id (q_id item) (sync_queue w))) + 1 in
  handleSyncError env cfg item error w
  = (Ok tt,
     mkWorld (tasks w)
       (update_where q_id (q_id item)
          (set_retry retryCount error
             (if maxRetries cfg <=? retryCount then failed else pending))
          (sync_queue w))
       (console w ++
          [if maxRetries cfg <=? retryCount
           then LogPermanentFailure (task_id item) retryCount
           else LogRetryLater (task_id item) retryCount (maxRetries cfg)])
       (S (S (steps w)))).
Proof.
  intros H0 H1. cbv zeta.
  unfold handleSyncError, try_catch, bind, db_query, db_run, log.
  rewrite H0. cbn [tick steps sync_queue]. rewrite H1. reflexivity.
Qed.

Lemma or_zero_Some v : or_zero (Some v) = v.
Proof.
  cbn. destruct (v =? 0) eqn:E; [apply Z.eqb_eq in E; lia | reflexivity].
Qed.

(** [addToSyncQueue] (X1): when the INSERT is accepted exactly one row is
    appended after the rows already queued, carrying the task id, the
    operation and the payload given, the id drawn from [uuidv4], the time
    read from the clock and a retry count of 0; when the INSERT is rejected
    the error is thrown to the caller, nothing is queued and nothing is
    logged. The [tasks] table is never touched. *)
Theorem addToSyncQueue_appends_or_throws env taskId op payload w :
  let out := addToSyncQueue env taskId op payload w in
  (db_error env (S (S (steps w))) = None ->
     fst out = Ok tt /\
     (exists r,
         sync_queue (snd out) = sync_queue w ++ [r] /\
         q_id r = uuid env (steps w) /\ task_id r = taskId /\
         operation r = op /\ data r = payload /\
         q_created_at r = wall_clock env (S (steps w)) /\
         retry_count r = 0 /\ error_message r = None) /\
     console (snd out) = console w ++ [LogAddedToQueue taskId op]) /\
  (forall e, db_error env (S (S (steps w))) = Some e ->
     fst out = Throw e /\ sync_queue (snd out) = sync_queue w /\
     console (snd out) = console w) /\
  tasks (snd out) = tasks w.
Proof.
  cbv zeta. unfold addToSyncQueue, bind, uuidv4, new_Date, db_run, log.
  cbn [tick steps]. split; [|split].
  - intros H. rewrite H. cbn. repeat split. eexists. repeat split.
  - intros e H. rewrite H. cbn. repeat split.
  - destruct (db_error env (S (S (steps w)))); reflexivity.
Qed.

Lemma addToSyncQueue_appends_or_throws_witness :
  fst (addToSyncQueue (failing_at [2%nat]) "t1" update "{}" (tried 0))
  = Throw "SQLITE_IOERR" /\
  length (sync_queue (snd (addToSyncQueue quiet "t1" update "{}" (tried 0))))
  = 2%nat.
Proof.
  split.
  - apply (addToSyncQueue_appends_or_throws (failing_at [2%nat]) "t1" update
             "{}" (tried 0)). reflexivity.
  - destruct (addToSyncQueue_appends_or_throws quiet "t1" update "{}" (tried 0))
      as (Hok & _).
    destruct (Hok eq_refl) as (_ & (r & Hq & _) & _).
    rewrite Hq. reflexivity.
Defined.

(** [sync] (X2): a cycle rejects exactly when the server is reachable and
    the read of the pending rows is rejected by the storage; it then rejects
    with that error and leaves both tables as they were. No other storage
    error escapes a cycle. *)
Theorem sync_throws_only_when_read_fails env cfg fuel w e :
  (fst (sync env cfg fuel w) = Throw e <->
   health env (steps w) = true /\ db_error env (S (steps w)) = Some e) /\
  (fst (sync env cfg fuel w) = Throw e ->
   tasks (snd (sync env cfg fuel w)) = tasks w /\
   sync_queue (snd (sync env cfg fuel w)) = sync_queue w).
Proof.
  assert (Hloop : forall items w0,
             fst (fmap (option_map result_of_totals)
                    (sync_loop env cfg fuel items 0 (mkTotals 0 0 [])) w0)
             <> Throw e).
  { intros items w0. unfold fmap, bind.
    destruct (sync_loop_safe env cfg fuel items 0 (mkTotals 0 0 []) w0)
      as [r Hr].
    destruct (sync_loop env cfg fuel items 0 (mkTotals 0 0 []) w0)
      as [[r0|e0] w1]; cbn in *; congruence. }
  destruct (health env (steps w)) eqn:Hh.
  - destruct (db_error env (S (steps w))) as [e0|] eqn:Hdb.
    + rewrite (sync_read_fails env cfg fuel w e0 Hh Hdb). cbn [fst snd].
      split; [split|].
      * intros H. inversion H. now split.
      * intros [_ H]. now inversion H.
      * intros _. now split.
    + destruct (pending_rows (sync_queue w)) as [|x l] eqn:Hp.
      * rewrite (sync_nothing_pending env cfg fuel w Hh Hdb Hp). cbn [fst].
        split; [split|]; try discriminate. intros [_ H]. discriminate.
      * assert (Hne : pending_rows (sync_queue w) <> [])
          by (rewrite Hp; discriminate).
        rewrite (sync_online env cfg fuel w Hh Hdb Hne).
        split; [split|].
        -- intros H. now elim (Hloop _ _ H).
        -- intros [_ H]. discriminate.
        -- intros H. now elim (Hloop _ _ H).
  - rewrite (sync_offline env cfg fuel w Hh). cbn [fst].
    split; [split|]; try discriminate. intros [H _]. discriminate.
Qed.

Lemma sync_throws_only_when_read_fails_witness :
  fst (sync (failing_at [1%nat]) cfg2 5 w3) = Throw "SQLITE_IOERR".
Proof.
  apply (sync_throws_only_when_read_fails (failing_at [1%nat]) cfg2 5%nat w3
           "SQLITE_IOERR").
  split; reflexivity.
Defined.

Lemma In_pending_rows q r :
  In r (pending_rows q) <-> In r q /\ status r = pending.
Proof.
  unfold pending_rows. rewrite <- is_pending_iff.
  change (fun r0 => eqb_status (status r0) pending) with is_pending.
  rewrite <- filter_In. split; intros H.
  - eapply Permutation_in; [apply order_by_created_at_perm | exact H].
  - eapply Permutation_in;
      [apply Permutation_sym, order_by_created_at_perm | exact H].
Qed.

Lemma In_update_where {R} (key : R -> string) k f rows r' :
  In r' (update_where key k f rows) ->
  exists r, In r rows /\ r' = if String.eqb (key r) k then f r else r.
Proof.
  unfold update_where. intros H. apply in_map_iff in H.
  destruct H as (r & Hr & Hin). exists r. now split.
Qed.

Lemma sync_loop_stuck env cfg items :
  batchSize cfg <= 0 -> items <> [] ->
  forall fuel i acc w, i <= 0 ->
    fst (sync_loop env cfg fuel items i acc w) = Ok None.
Proof.
  intros Hz Hne.
  assert (E : forall i, i <= 0 -> (i <? Z.of_nat (length items)) = true).
  { intros i Hi. apply Z.ltb_lt.
    destruct items; [now elim Hne | cbn [length]; lia]. }
  induction fuel as [|fuel IH]; intros i acc w Hi; cbn [sync_loop];
    rewrite (E i Hi).
  - reflexivity.
  - unfold bind.
    destruct (batch_step_safe env cfg
                (js_slice i (i + batchSize cfg) items) acc w) as [acc' Ha].
    destruct (batch_step env cfg (js_slice i (i + batchSize cfg) items) acc w)
      as [[a|e] w1]; cbn [fst] in Ha; [apply IH; lia | discriminate].
Qed.

(** [sync] (X3): with a batch size of zero or less and at least one pending
    row, the index of the loop never passes the end of the list: however
    many iterations are allowed, the cycle has not returned. *)
Theorem sync_never_returns_with_nonpositive_batch_size env cfg w :
  batchSize cfg <= 0 ->
  health env (steps w) = true ->
  db_error env (S (steps w)) = None ->
  pending_rows (sync_queue w) <> [] ->
  forall fuel, fst (sync env cfg fuel w) = Ok None.
Proof.
  intros Hz Hh Hdb Hne fuel.
  rewrite (sync_online env cfg fuel w Hh Hdb Hne). unfold fmap, bind.
  pose proof (sync_loop_stuck env cfg _ Hz Hne fuel 0 (mkTotals 0 0 [])
                (started w) (Z.le_refl 0)) as H.
  destruct (sync_loop env cfg fuel (pending_rows (sync_queue w)) 0
              (mkTotals 0 0 []) (started w)) as [[r|e] w1];
    cbn [fst] in H; [|discriminate].
  inversion H. reflexivity.
Qed.

Lemma sync_never_returns_with_nonpositive_batch_size_witness :
  fst (sync quiet (mkConfig (-1) 3) 50 w3) = Ok None.
Proof.
  apply (sync_never_returns_with_nonpositive_batch_size quiet
           (mkConfig (-1) 3) w3).
  - cbn. lia.
  - reflexivity.
  - reflexivity.
  - cbn. discriminate.
Defined.

Lemma fail_times_S env cfg k item error w w1 :
  handleSyncError env cfg item error w = (Ok tt, w1) ->
  fail_times env cfg (S k) item error w = fail_times env cfg k item error w1.
Proof. intros H. cbn [fail_times]. unfold bind. now rewrite H. Qed.

(** [handleSyncError], cycle after cycle (X4): [n] failures recorded for a
    queued row, the storage accepting every call, leave every row of that id
    with its retry count raised by [n], the last message stored, and the
    status [failed] exactly when the count has reached
    [SYNC_RETRY_ATTEMPTS]; from then on the row is not among the pending
    rows any more. *)
Theorem repeated_failures_reach_failed env cfg n item error w row :
  reliable env ->
  select_first q_id (q_id item) (sync_queue w) = Some row ->
  let out := fail_times env cfg (S n) item error w in
  let count := retry_count row + Z.of_nat (S n) in
  let verdict := if maxRetries cfg <=? count then failed else pending in
  fst out = Ok tt /\
  (exists row',
      select_first q_id (q_id item) (sync_queue (snd out)) = Some row' /\
      retry_count row' = count /\ status row' = verdict /\
      error_message row' = Some error) /\
  (forall r, In r (sync_queue (snd out)) -> q_id r = q_id item ->
             retry_count r = count /\ status r = verdict) /\
  (maxRetries cfg <= count ->
   forall r, In r (pending_rows (sync_queue (snd out))) -> q_id r <> q_id item).
Proof.
  intros Hrel. cbv zeta. revert w row.
  assert (Hgoal : forall w row,
    select_first q_id (q_id item) (sync_queue w) = Some row ->
    fst (fail_times env cfg (S n) item error w) = Ok tt /\
    (exists row',
        select_first q_id (q_id item)
          (sync_queue (snd (fail_times env cfg (S n) item error w)))
        = Some row' /\
        retry_count row' = retry_count row + Z.of_nat (S n) /\
        status row' = (if maxRetries cfg <=? retry_count row + Z.of_nat (S n)
                       then failed else pending) /\
        error_message row' = Some error) /\
    (forall r, In r (sync_queue (snd (fail_times env cfg (S n) item error w))) ->
               q_id r = q_id item ->
               retry_count r = retry_count row + Z.of_nat (S n) /\
               status r = (if maxRetries cfg <=? retry_count row + Z.of_nat (S n)
                           then failed else pending))).
  { induction n as [|n IH]; intros w row Hrow;
      pose proof (handleSyncError_run env cfg item error w (Hrel _) (Hrel _))
        as Hrun; cbv zeta in Hrun;
      rewrite Hrow in Hrun; cbn [option_map] in Hrun;
      rewrite or_zero_Some in Hrun;
      rewrite (fail_times_S _ _ _ _ _ _ _ Hrun).
    - cbn [fail_times ret fst snd sync_queue]. change (Z.of_nat 1) with 1.
      split; [reflexivity|]. split.
      + rewrite select_first_update_where by reflexivity.
        rewrite Hrow. cbn [option_map]. eexists. split; [reflexivity|].
        cbn. repeat split.
      + intros r Hr Hid. apply In_update_where in Hr.
        destruct Hr as (r0 & _ & ->).
        destruct (String.eqb (q_id r0) (q_id item)) eqn:E.
        * cbn. now split.
        * apply String.eqb_neq in E. now elim E.
    - match goal with
      | |- context [fail_times env cfg (S n) item error ?w1] =>
          assert (Hrow1 : select_first q_id (q_id item) (sync_queue w1)
                          = Some (set_retry (retry_count row + 1) error
                                    (if maxRetries cfg <=? retry_count row + 1
                                     then failed else pending) row));
          [ cbn [sync_queue];
            rewrite select_first_update_where by reflexivity;
            now rewrite Hrow
          | destruct (IH w1 _ Hrow1) as (Hok & (row' & Hsel & Hrc & Hst & Hmsg) & Hall) ]
      end.
      cbn [set_retry retry_count] in *.
      replace (retry_count row + Z.of_nat (S (S n)))
        with (retry_count row + 1 + Z.of_nat (S n)) by lia.
      split; [exact Hok|]. split; [|exact Hall].
      exists row'. repeat split; assumption. }
  intros w row Hrow. destruct (Hgoal w row Hrow) as (Hok & Hex & Hall).
  split; [exact Hok|]. split; [exact Hex|]. split; [exact Hall|].
  intros Hmax r Hr Hid. apply In_pending_rows in Hr. destruct Hr as [Hin Hp].
  destruct (Hall r Hin Hid) as [_ Hst].
  assert (E : (maxRetries cfg <=? retry_count row + Z.of_nat (S n)) = true)
    by (apply Z.leb_le; exact Hmax).
  rewrite E in Hst. congruence.
Qed.

Lemma repeated_failures_reach_failed_witness :
  exists row',
    select_first q_id "q1"
      (sync_queue (snd (fail_times quiet cfg2 3 item1 "boom" (tried 0))))
    = Some row' /\ retry_count row' = 3 /\ status row' = failed.
Proof.
  destruct (repeated_failures_reach_failed quiet cfg2 2%nat item1 "boom"
              (tried 0) (mkItem "q1" "t1" update "{}" 10 0 None pending None)
              (fun _ => eq_refl) eq_refl)
    as (_ & (row' & Hsel & Hrc & Hst & _) & _).
  exists row'. repeat split; assumption.
Defined.

Lemma update_where_no_match {R} (key : R -> string) k f rows :
  (forall r, In r rows -> key r <> k) -> update_where key k f rows = rows.
Proof.
  intros H. unfold update_where. rewrite <- (map_id rows) at 2.
  apply map_ext_in. intros r Hr.
  now rewrite (eqb_false_of_neq _ _ (H r Hr)).
Qed.

Lemma resolveConflict_run env localTask serverTask w :
  exists line,
    resolveConflict env localTask serverTask w
    = match db_error env (S (steps w)) with
      | None =>
          (Ok (winner localTask serverTask),
           mkWorld
             (update_where id (id (winner localTask serverTask))
                (set_resolved (winner localTask serverTask)
                   (wall_clock env (steps w))) (tasks w))
             (sync_queue w)
             ((console w ++ [line])
                ++ [LogConflictResolved (id (winner localTask serverTask))])
             (S (S (steps w))))
      | Some e =>
          (Throw e,
           mkWorld (tasks w) (sync_queue w) (console w ++ [line])
                   (S (S (steps w))))
      end.
Proof.
  unfold resolveConflict, winner, bind, new_Date, db_run, log, ret.
  destruct (updated_at serverTask <? updated_at localTask);
    [|destruct (updated_at localTask <? updated_at serverTask)];
    cbn [tick steps fst snd]; eexists;
    destruct (db_error env (S (steps w))); reflexivity.
Qed.

(** [resolveConflict] (X5): with the write accepted, every local row whose
    id is the winner's takes the winner's title, description, completed
    flag, [updated_at] and [server_id], becomes [synced] with
    [last_synced_at] set to the current time, and keeps its own id,
    [created_at] and [is_deleted]; rows of other ids are untouched. The
    UPDATE is keyed on the winner's id: when no local row has that id the
    table is left as it was although the winner is returned. With the write
    rejected the error is thrown and the table is unchanged. The queue is
    never touched. *)
Theorem resolveConflict_writes_winner env localTask serverTask w :
  let out := resolveConflict env localTask serverTask w in
  let win := winner localTask serverTask in
  (db_error env (S (steps w)) = None ->
     (forall n t, nth_error (tasks w) n = Some t -> id t = id win ->
        exists t',
          nth_error (tasks (snd out)) n = Some t' /\
          title t' = title win /\ description t' = description win /\
          completed t' = completed win /\ updated_at t' = updated_at win /\
          server_id t' = server_id win /\ sync_status t' = task_synced /\
          last_synced_at t' = Some (wall_clock env (steps w)) /\
          id t' = id t /\ created_at t' = created_at t /\
          is_deleted t' = is_deleted t) /\
     (forall n t, nth_error (tasks w) n = Some t -> id t <> id win ->
        nth_error (tasks (snd out)) n = Some t) /\
     ((forall t, In t (tasks w) -> id t <> id win) ->
        tasks (snd out) = tasks w /\ fst out = Ok win)) /\
  (forall e, db_error env (S (steps w)) = Some e ->
     fst out = Throw e /\ tasks (snd out) = tasks w) /\
  sync_queue (snd out) = sync_queue w.
Proof.
  cbv zeta.
  destruct (resolveConflict_run env localTask serverTask w) as [line Hrun].
  rewrite Hrun. split; [|split].
  - intros Hdb. rewrite Hdb. cbn [fst snd tasks]. split; [|split].
    + intros n t Hn Hid.
      rewrite (nth_error_update_where _ _ _ _ _ _ Hn), Hid, String.eqb_refl.
      eexists. split; [reflexivity|]. cbn. repeat split. exact Hid.
    + intros n t Hn Hne.
      rewrite (nth_error_update_where _ _ _ _ _ _ Hn).
      now rewrite (eqb_false_of_neq _ _ Hne).
    + intros Hnone. split; [|reflexivity].
      now apply update_where_no_match.
  - intros e Hdb. rewrite Hdb. now split.
  - destruct (db_error env (S (steps w))); reflexivity.
Qed.

Lemma resolveConflict_writes_winner_witness :
  tasks (snd (resolveConflict quiet older
                (mkTask "server-7" "server title" "" true 0 200 false
                        task_synced (Some "s1") None) w3))
  = tasks w3.
Proof.
  destruct (resolveConflict_writes_winner quiet older
              (mkTask "server-7" "server title" "" true 0 200 false
                      task_synced (Some "s1") None) w3) as (Hok & _).
  destruct (Hok eq_refl) as (_ & _ & Hnone).
  apply Hnone. intros t Ht. cbn in Ht.
  destruct Ht as [<-|[<-|[<-|[]]]]; discriminate.
Defined.

(** *** A cycle in which every storage call is accepted *)

Lemma updateSyncStatus_synced_run env taskId serverId w :
  db_error env (S (steps w)) = None ->
  db_error env (S (S (steps w))) = None ->
  updateSyncStatus env taskId arg_synced serverId w
  = (Ok tt,
     mkWorld
       (update_where id taskId
          (set_sync_status task_synced serverId (wall_clock env (steps w)))
          (tasks w))
       (delete_where task_id taskId (sync_queue w))
       (console w ++ [LogTaskSynced taskId])
       (S (S (S (steps w))))).
Proof.
  intros H1 H2.
  unfold updateSyncStatus, try_catch, bind, new_Date, db_run, log.
  cbn [tick steps]. rewrite H1. cbn [tick steps set_tasks]. rewrite H2.
  reflexivity.
Qed.

Lemma markAsSynced_run env queueId w :
  db_error env (S (steps w)) = None ->
  markAsSynced env queueId w
  = (Ok tt,
     mkWorld (tasks w)
       (update_where q_id queueId (set_synced (wall_clock env (steps w)))
          (sync_queue w))
       (console w) (S (S (steps w)))).
Proof.
  intros H. unfold markAsSynced, bind, new_Date, db_run.
  cbn [tick steps]. rewrite H. reflexivity.
Qed.

Lemma settled_nil w w' :
  tasks w' = tasks w -> sync_queue w' = sync_queue w -> settled [] w w'.
Proof.
  intros Ht Hq. unfold settled. rewrite Ht, Hq.
  split; [|split; [|split; [|split]]].
  - intros x r [].
  - intros r Hr _. exact Hr.
  - intros r Hr. now exists r.
  - intros x t [].
  - intros k Hk. exact Hk.
Qed.

Lemma settled_app xs ys w w1 w2 :
  settled xs w w1 -> settled ys w1 w2 -> settled (xs ++ ys) w w2.
Proof.
  intros (A1 & A2 & A3 & A4 & A5) (B1 & B2 & B3 & B4 & B5).
  split; [|split; [|split; [|split]]].
  - intros x r Hx Hr. apply in_app_or in Hx. destruct Hx as [Hx|Hx].
    + destruct (B3 r Hr) as (r0 & Hr0 & <-). now apply A1.
    + now apply B1.
  - intros r Hr Hp. apply A2; [now apply B2 | exact Hp].
  - intros r Hr. destruct (B3 r Hr) as (r0 & Hr0 & <-).
    destruct (A3 r0 Hr0) as (r1 & Hr1 & <-). now exists r1.
  - intros x t Hx Ht Hid. apply in_app_or in Hx. destruct Hx as [Hx|Hx].
    + apply (B5 (task_id x)); auto. intros t0 Ht0 Hid0. now apply (A4 x).
    + now apply (B4 x).
  - intros k Hk. apply B5. now apply A5.
Qed.

Lemma settled_same_tables xs w w0 w' w1 :
  tasks w0 = tasks w -> sync_queue w0 = sync_queue w ->
  tasks w1 = tasks w' -> sync_queue w1 = sync_queue w' ->
  settled xs w0 w' -> settled xs w w1.
Proof.
  unfold settled. intros -> -> -> ->. auto.
Qed.

Lemma settled_one env x w :
  db_error env (S (steps w)) = None ->
  db_error env (S (S (steps w))) = None ->
  db_error env (S (S (S (S (steps w))))) = None ->
  exists w',
    (updateSyncStatus env (task_id x) arg_synced None ;;
     markAsSynced env (q_id x)) w = (Ok tt, w') /\
    steps w' = (5 + steps w)%nat /\
    settled [x] w w'.
Proof.
  intros H1 H2 H4.
  eexists. split; [|split].
  - rewrite (bind_ok _ _ _ _ _
               (updateSyncStatus_synced_run env (task_id x) None w H1 H2)).
    apply markAsSynced_run. exact H4.
  - reflexivity.
  - unfold settled. cbn [tasks sync_queue steps].
    split; [|split; [|split; [|split]]].
    + intros y r [<-|[]] Hr.
      apply In_update_where in Hr. destruct Hr as (r0 & Hr0 & ->).
      apply In_delete_where in Hr0. destruct Hr0 as [_ Hne].
      now destruct (String.eqb (q_id r0) (q_id x)).
    + intros r Hr Hp.
      apply In_update_where in Hr. destruct Hr as (r0 & Hr0 & ->).
      apply In_delete_where in Hr0. destruct Hr0 as [Hin _].
      destruct (String.eqb (q_id r0) (q_id x)); [discriminate | exact Hin].
    + intros r Hr.
      apply In_update_where in Hr. destruct Hr as (r0 & Hr0 & ->).
      apply In_delete_where in Hr0. destruct Hr0 as [Hin _].
      exists r0. split; [exact Hin|].
      now destruct (String.eqb (q_id r0) (q_id x)).
    + intros y t [<-|[]] Ht Hid.
      apply In_update_where in Ht. destruct Ht as (t0 & _ & ->).
      destruct (String.eqb (id t0) (task_id x)) eqn:E.
      * split; [reflexivity | discriminate].
      * apply String.eqb_neq in E. now elim E.
    + intros k Hk t Ht Hid.
      apply In_update_where in Ht. destruct Ht as (t0 & Ht0 & ->).
      destruct (String.eqb (id t0) (task_id x)) eqn:E.
      * split; [reflexivity | discriminate].
      * now apply Hk.
Qed.

Lemma mark_loop_settled env :
  reliable env ->
  forall xs w, exists w',
    for_each xs (fun item =>
      updateSyncStatus env (task_id item) arg_synced None ;;
      markAsSynced env (q_id item)) w = (Ok tt, w') /\
    settled xs w w'.
Proof.
  intros Hrel. induction xs as [|x xs IH]; intros w.
  - exists w. split; [reflexivity | now apply settled_nil].
  - destruct (settled_one env x w (Hrel _) (Hrel _) (Hrel _))
      as (w1 & Hrun & _ & Hone).
    destruct (IH w1) as (w' & Hrest & Hs).
    exists w'. split.
    + cbn [for_each]. rewrite (bind_ok _ _ _ _ _ Hrun). exact Hrest.
    + change (x :: xs) with ([x] ++ xs). eapply settled_app; eauto.
Qed.

Lemma processBatch_all_ok env cfg xs w :
  reliable env ->
  exists w',
    processBatch env cfg xs w = (Ok (mkResponse (map success_outcome xs)), w') /\
    settled xs w w'.
Proof.
  intros Hrel. rewrite processBatch_entered.
  unfold try_catch, processBatch_try, bind at 1 2, log.
  match goal with
  | |- context [bind (for_each xs ?b) ?k ?w0] =>
      destruct (mark_loop_settled env Hrel xs w0) as (w' & Hrun & Hs);
      rewrite (bind_ok _ _ _ _ _ Hrun)
  end.
  exists w'. split; [reflexivity|].
  eapply settled_same_tables; [| | | | exact Hs]; reflexivity.
Qed.

Lemma filter_success_outcomes items :
  filter is_success (map success_outcome items) = map success_outcome items /\
  filter is_error (map success_outcome items) = [].
Proof.
  induction items as [|x xs [IH1 IH2]]; cbn; [now split|].
  now rewrite IH1, IH2.
Qed.

Lemma batch_step_all_ok env cfg xs acc w :
  reliable env ->
  exists w',
    batch_step env cfg xs acc w
    = (Ok (mkTotals (t_synced acc + length xs) (t_failed acc) (t_errors acc)),
       w') /\
    settled xs w w'.
Proof.
  intros Hrel.
  destruct (processBatch_all_ok env cfg xs w Hrel) as (w' & Hrun & Hs).
  exists w'. split; [|exact Hs].
  unfold batch_step, try_catch. rewrite (bind_ok _ _ _ _ _ Hrun).
  cbn [processed_items].
  destruct (filter_success_outcomes xs) as [-> ->].
  cbn [push_failed length]. unfold bind, ret.
  now rewrite length_map, Nat.add_0_r.
Qed.

Lemma drain_all_ok env cfg :
  reliable env ->
  forall bs acc w, exists w',
    drain env cfg bs acc w
    = (Ok (mkTotals (t_synced acc + length (concat bs)) (t_failed acc)
                    (t_errors acc)), w') /\
    settled (concat bs) w w'.
Proof.
  intros Hrel. induction bs as [|b bs IH]; intros acc w.
  - exists w. cbn. rewrite Nat.add_0_r. destruct acc.
    split; [reflexivity | now apply settled_nil].
  - destruct (batch_step_all_ok env cfg b acc w Hrel) as (w1 & Hstep & H1).
    destruct (IH (mkTotals (t_synced acc + length b) (t_failed acc)
                    (t_errors acc)) w1) as (w' & Hrest & H2).
    exists w'. split.
    + cbn [drain]. rewrite (bind_ok _ _ _ _ _ Hstep), Hrest.
      cbn [t_synced t_failed t_errors concat].
      now rewrite length_app, Nat.add_assoc.
    + cbn [concat]. eapply settled_app; eauto.
Qed.

Lemma sync_all_ok_run env cfg fuel w :
  reliable env ->
  0 < batchSize cfg ->
  health env (steps w) = true ->
  (length (pending_rows (sync_queue w)) <= fuel)%nat ->
  exists w',
    sync env cfg fuel w
    = (Ok (Some (mkSyncResult 1 (length (pending_rows (sync_queue w))) 0 [])),
       w') /\
    settled (pending_rows (sync_queue w)) w w'.
Proof.
  intros Hrel Hs Hh Hfuel.
  destruct (pending_rows (sync_queue w)) as [|x l] eqn:Hp.
  - exists (idle w). split.
    + now apply sync_nothing_pending.
    + now apply settled_nil.
  - rewrite <- Hp in *.
    assert (Hne : pending_rows (sync_queue w) <> [])
      by (rewrite Hp; discriminate).
    rewrite (sync_online env cfg fuel w Hh (Hrel _) Hne).
    destruct (drain_all_ok env cfg Hrel
                (batches (Z.to_nat (batchSize cfg)) (pending_rows (sync_queue w)))
                (mkTotals 0 0 []) (started w)) as (w' & Hd & Hset).
    unfold batches in Hd, Hset.
    rewrite concat_batches_from in Hd, Hset by lia.
    exists w'. split.
    + assert (Hloop : sync_loop env cfg fuel (pending_rows (sync_queue w))
                        (Z.of_nat 0) (mkTotals 0 0 []) (started w)
                      = (Ok (Some (mkTotals
                                     (length (pending_rows (sync_queue w)))
                                     0 [])), w')).
      { rewrite (sync_loop_drain env cfg _ Hs fuel 0%nat) by lia.
        cbn [skipn]. unfold fmap, batches.
        now rewrite (bind_ok _ _ _ _ _ Hd). }
      unfold fmap. change 0 with (Z.of_nat 0) at 1.
      now rewrite (bind_ok _ _ _ _ _ Hloop).
    + eapply settled_same_tables; [| | | | exact Hset]; reflexivity.
Qed.

Lemma settled_no_pending w w' :
  settled (pending_rows (sync_queue w)) w w' ->
  pending_rows (sync_queue w') = [].
Proof.
  intros (A1 & A2 & _).
  destruct (pending_rows (sync_queue w')) as [|r l] eqn:E; [reflexivity|].
  assert (Hr : In r (pending_rows (sync_queue w'))) by (rewrite E; now left).
  apply In_pending_rows in Hr. destruct Hr as [Hin Hp].
  assert (Hold : In r (pending_rows (sync_queue w)))
    by (apply In_pending_rows; split; [now apply A2 | exact Hp]).
  now elim (A1 r r Hold Hin).
Qed.

(** [sync] with a storage that accepts every call (X6): a cycle that reaches
    the server syncs every pending row. It returns [success = 1], the number
    of pending rows as [synced_items], no failure and no error entry;
    afterwards nothing is pending, no queue row references the record of an
    item that was pending, and every task row such an item referenced is
    [synced] with a [last_synced_at]. *)
Theorem sync_all_succeed env cfg fuel w :
  reliable env ->
  0 < batchSize cfg ->
  health env (steps w) = true ->
  (length (pending_rows (sync_queue w)) <= fuel)%nat ->
  let out := sync env cfg fuel w in
  fst out
  = Ok (Some (mkSyncResult 1 (length (pending_rows (sync_queue w))) 0 [])) /\
  pending_rows (sync_queue (snd out)) = [] /\
  (forall x r, In x (pending_rows (sync_queue w)) ->
               In r (sync_queue (snd out)) -> task_id r <> task_id x) /\
  (forall x t, In x (pending_rows (sync_queue w)) ->
               In t (tasks (snd out)) -> id t = task_id x ->
               sync_status t = task_synced /\ last_synced_at t <> None).
Proof.
  intros Hrel Hs Hh Hfuel. cbv zeta.
  destruct (sync_all_ok_run env cfg fuel w Hrel Hs Hh Hfuel) as (w' & Hrun & Hset).
  rewrite Hrun. cbn [fst snd].
  split; [reflexivity|]. split; [now apply (settled_no_pending w)|].
  destruct Hset as (A1 & _ & _ & A4 & _). split; [exact A1 | exact A4].
Qed.

Lemma sync_all_succeed_witness :
  fst (sync quiet cfg2 5 w3) = Ok (Some (mkSyncResult 1 3 0 [])) /\
  pending_rows (sync_queue (snd (sync quiet cfg2 5 w3))) = [].
Proof.
  destruct (sync_all_succeed quiet cfg2 5%nat w3 (fun _ => eq_refl) eq_refl
              eq_refl) as (Hres & Hnone & _).
  - cbn. lia.
  - split; [exact Hres | exact Hnone].
Defined.

(** Two cycles in a row (X7): after a cycle in which every storage call was
    accepted, the next cycle that reaches the server finds nothing to sync:
    it returns [success = 1] with no item synced or failed and changes
    neither table. *)
Theorem second_cycle_finds_nothing env cfg fuel fuel' w :
  reliable env ->
  0 < batchSize cfg ->
  health env (steps w) = true ->
  (length (pending_rows (sync_queue w)) <= fuel)%nat ->
  let w1 := snd (sync env cfg fuel w) in
  health env (steps w1) = true ->
  let out := sync env cfg fuel' w1 in
  fst out = Ok (Some (mkSyncResult 1 0 0 [])) /\
  tasks (snd out) = tasks w1 /\ sync_queue (snd out) = sync_queue w1.
Proof.
  intros Hrel Hs Hh Hfuel. cbv zeta. intros Hh1.
  destruct (sync_all_ok_run env cfg fuel w Hrel Hs Hh Hfuel) as (w' & Hrun & Hset).
  rewrite Hrun in *. cbn [snd] in *.
  rewrite (sync_nothing_pending env cfg fuel' w' Hh1 (Hrel _)
             (settled_no_pending w w' Hset)).
  repeat split.
Qed.

Lemma second_cycle_finds_nothing_witness :
  fst (sync quiet cfg2 0 (snd (sync quiet cfg2 5 w3)))
  = Ok (Some (mkSyncResult 1 0 0 [])).
Proof.
  apply (second_cycle_finds_nothing quiet cfg2 5%nat 0%nat w3
           (fun _ => eq_refl) eq_refl eq_refl).
  - cbn. lia.
  - reflexivity.
Defined.

(** [processBatch] when marking the queue row fails (X8): the queue rows of
    the record were already deleted by [updateSyncStatus(..., 'synced')]
    when the write of [markAsSynced] is rejected. The item is answered
    ['error'] and its task row ends as [error], but no queue row of the
    record is left for [handleSyncError] to update: no retry is recorded and
    no later cycle will find the item among the pending rows. *)
Theorem failed_item_leaves_no_row_to_retry env cfg x w e :
  db_error env (5 + steps w) = Some e ->
  (forall n, n <> (5 + steps w)%nat -> db_error env n = None) ->
  let out := processBatch env cfg [x] w in
  fst out = Ok (mkResponse [error_outcome e x]) /\
  (forall r, In r (sync_queue (snd out)) -> task_id r <> task_id x) /\
  (forall r, In r (pending_rows (sync_queue (snd out))) ->
             task_id r <> task_id x) /\
  (forall t, In t (tasks (snd out)) -> id t = task_id x ->
             sync_status t = task_error) /\
  calls_of by_handleSyncError (console (snd out))
  = S (calls_of by_handleSyncError (console w)).
Proof.
  intros Hfail Hnone. cbv zeta.
  assert (E2 : db_error env (S (S (steps w))) = None) by (apply Hnone; lia).
  assert (E3 : db_error env (S (S (S (steps w)))) = None) by (apply Hnone; lia).
  assert (E7 : db_error env (S (S (S (S (S (S (S (steps w)))))))) = None)
    by (apply Hnone; lia).
  assert (E8 : db_error env (S (S (S (S (S (S (S (S (steps w))))))))) = None)
    by (apply Hnone; lia).
  assert (E9 : db_error env (S (S (S (S (S (S (S (S (S (steps w)))))))))) = None)
    by (apply Hnone; lia).
  cbn [Nat.add] in Hfail.
  assert (Hrun : exists st rc line c,
    processBatch env cfg [x] w
    = (Ok (mkResponse [error_outcome e x]),
       mkWorld
         (update_where id (task_id x)
            (set_sync_status task_error None
               (wall_clock env (6 + steps w)))
            (update_where id (task_id x)
               (set_sync_status task_synced None
                  (wall_clock env (1 + steps w))) (tasks w)))
         (update_where q_id (q_id x) (set_retry rc e st)
            (delete_where task_id (task_id x) (sync_queue w)))
         (c ++ [line]) (10 + steps w)) /\
    origin line = by_handleSyncError /\
    calls_of by_handleSyncError c = calls_of by_handleSyncError (console w)).
  { unfold processBatch, processBatch_try, processBatch_catch,
      updateSyncStatus, markAsSynced, handleSyncError, try_catch, bind,
      new_Date, db_run, db_query, log, ret.
    cbn [for_each tick steps tasks sync_queue console set_tasks set_queue
         fst snd map].
    unfold bind, try_catch, new_Date, db_run, db_query, log, ret.
    cbn [tick steps tasks sync_queue console set_tasks set_queue fst snd].
    rewrite E2. cbn [tick steps tasks sync_queue console set_tasks set_queue].
    rewrite E3. cbn [tick steps tasks sync_queue console set_tasks set_queue].
    rewrite Hfail.
    cbn [tick steps tasks sync_queue console set_tasks set_queue].
    rewrite E7. cbn [tick steps tasks sync_queue console set_tasks set_queue].
    rewrite E8. cbn [tick steps tasks sync_queue console set_tasks set_queue].
    rewrite E9. cbn [tick steps tasks sync_queue console set_tasks set_queue].
    do 4 eexists. split; [reflexivity|]. split.
    - match goal with |- context [if ?c then _ else _] => destruct c end;
        reflexivity.
    - rewrite !calls_of_snoc. cbn. lia. }
  destruct Hrun as (st & rc & line & c & Hrun & Hline & Hc).
  rewrite Hrun. cbn [fst snd sync_queue tasks console].
  assert (Hq : forall r,
             In r (update_where q_id (q_id x) (set_retry rc e st)
                     (delete_where task_id (task_id x) (sync_queue w))) ->
             task_id r <> task_id x).
  { intros r Hr. apply In_update_where in Hr. destruct Hr as (r0 & Hr0 & ->).
    apply In_delete_where in Hr0. destruct Hr0 as [_ Hne].
    now destruct (String.eqb (q_id r0) (q_id x)). }
  split; [reflexivity|]. split; [exact Hq|]. split; [|split].
  - intros r Hr. apply In_pending_rows in Hr. now apply Hq.
  - intros t Ht Hid. apply In_update_where in Ht. destruct Ht as (t0 & _ & ->).
    destruct (String.eqb (id t0) (task_id x)) eqn:E; [reflexivity|].
    apply String.eqb_neq in E. now elim E.
  - rewrite calls_of_snoc, Hline, Hc. cbn. lia.
Qed.

Lemma failed_item_leaves_no_row_to_retry_witness :
  fst (processBatch (failing_at [5%nat]) cfg2 [item1] (tried 0))
  = Ok (mkResponse [mkProcessed "q1" "t1" error_status (Some "SQLITE_IOERR")]) /\
  calls_of by_handleSyncError
    (console (snd (processBatch (failing_at [5%nat]) cfg2 [item1] (tried 0))))
  = 1%nat.
Proof.
  destruct (failed_item_leaves_no_row_to_retry (failing_at [5%nat]) cfg2
              item1 (tried 0) "SQLITE_IOERR" eq_refl) as (Hr & _ & _ & _ & Hc).
  - intros n Hn. cbn in Hn. unfold failing_at. cbn [db_error existsb].
    destruct (Nat.eqb n 5) eqn:E; [apply Nat.eqb_eq in E; lia | reflexivity].
  - split; [exact Hr | exact Hc].
Defined.

(** *** What a cycle leaves alone in [tasks] *)

Section TaskContent.

Variable env : Env.
Variable cfg : Config.

Lemma same_content_refl w : same_content w w.
Proof. reflexivity. Qed.

Lemma same_content_trans a b c :
  same_content a b -> same_content b c -> same_content a c.
Proof. unfold same_content. congruence. Qed.

Lemma same_content_tasks w w' : tasks w' = tasks w -> same_content w w'.
Proof. unfold same_content. now intros ->. Qed.

Lemma same_content_status k st now w :
  same_content w (set_tasks (update_where id k (set_sync_status st None now)) w).
Proof.
  unfold same_content, set_tasks, update_where. cbn [tasks].
  rewrite map_map. apply map_ext. intros t.
  now destruct (String.eqb (id t) k).
Qed.

Lemma sc_ret {A} (a : A) : runs same_content (ret a).
Proof. apply runs_ret. exact same_content_refl. Qed.

Lemma sc_bind {A B} (m : M A) (k : A -> M B) :
  runs same_content m -> (forall a, runs same_content (k a)) ->
  runs same_content (bind m k).
Proof. apply runs_bind. exact same_content_trans. Qed.

Lemma sc_try {A} (body : M A) (handler : string -> M A) :
  runs same_content body -> (forall e, runs same_content (handler e)) ->
  runs same_content (try_catch body handler).
Proof. apply runs_try_catch. exact same_content_trans. Qed.

Lemma sc_for_each {A} (xs : list A) (body : A -> M unit) :
  (forall x, In x xs -> runs same_content (body x)) ->
  runs same_content (for_each xs body).
Proof.
  apply runs_for_each; [exact same_content_refl | exact same_content_trans].
Qed.

Lemma sc_tick w : same_content w (tick w).
Proof. now apply same_content_tasks. Qed.

Lemma sc_log e : runs same_content (log e).
Proof. intros w. now apply same_content_tasks. Qed.

Lemma sc_queue_write f : runs same_content (db_run env (set_queue f)).
Proof.
  apply runs_db_run; [exact same_content_trans | exact sc_tick |].
  intros w. now apply same_content_tasks.
Qed.

Ltac sc_step :=
  first [ apply sc_ret
        | apply sc_log
        | apply sc_queue_write
        | apply (runs_new_Date env same_content sc_tick)
        | apply (runs_db_query env same_content sc_tick)
        | apply sc_try; [ | intros ]
        | apply sc_bind; [ | intros ] ].

Lemma sc_updateSyncStatus taskId st :
  runs same_content (updateSyncStatus env taskId st None).
Proof.
  unfold updateSyncStatus. destruct st; repeat sc_step;
    (apply runs_db_run; [exact same_content_trans | exact sc_tick |]);
    intros w; apply same_content_status.
Qed.

Lemma sc_markAsSynced queueId : runs same_content (markAsSynced env queueId).
Proof. unfold markAsSynced. repeat sc_step. Qed.

Lemma sc_handleSyncError item error :
  runs same_content (handleSyncError env cfg item error).
Proof. unfold handleSyncError. repeat sc_step. Qed.

Lemma sc_processBatch items : runs same_content (processBatch env cfg items).
Proof.
  unfold processBatch.
  apply sc_bind; [apply sc_log | intros _].
  apply sc_bind; [apply (runs_new_Date env same_content sc_tick) | intros _].
  apply sc_try.
  - unfold processBatch_try.
    apply sc_bind; [apply sc_log | intros _].
    apply sc_bind; [apply sc_log | intros _].
    apply sc_bind; [|intros; apply sc_ret].
    apply sc_for_each. intros x _. apply sc_bind.
    + apply sc_updateSyncStatus.
    + intros _. apply sc_markAsSynced.
  - intros e. unfold processBatch_catch.
    apply sc_bind; [apply sc_log | intros _].
    apply sc_bind; [|intros; apply sc_ret].
    apply sc_for_each. intros x _. apply sc_bind.
    + apply sc_updateSyncStatus.
    + intros _. apply sc_handleSyncError.
Qed.

Lemma sc_push_batch_errors batch err :
  forall errors, runs same_content (push_batch_errors env cfg batch err errors).
Proof.
  induction batch as [|x xs IH]; intros errors; cbn [push_batch_errors].
  - apply sc_ret.
  - apply sc_bind; [apply (runs_new_Date env same_content sc_tick) | intros].
    apply sc_bind; [apply sc_handleSyncError | intros; apply IH].
Qed.

Lemma sc_batch_step batch acc : runs same_content (batch_step env cfg batch acc).
Proof.
  unfold batch_step. apply sc_try.
  - apply sc_bind; [apply sc_processBatch | intros r].
    apply sc_bind; [|intros; apply sc_ret].
    apply (runs_push_failed env same_content same_content_refl
             same_content_trans sc_tick).
  - intros e. apply sc_bind; [apply sc_log | intros _].
    apply sc_bind; [apply sc_push_batch_errors | intros; apply sc_ret].
Qed.

Lemma sc_sync_loop fuel items :
  forall i acc, runs same_content (sync_loop env cfg fuel items i acc).
Proof.
  induction fuel as [|fuel IH]; intros i acc; cbn [sync_loop];
    destruct (i <? Z.of_nat (length items)); try apply sc_ret.
  apply sc_bind; [apply sc_batch_step | intros; apply IH].
Qed.

End TaskContent.

(** [sync] and the task rows (X9): whatever the storage and the server do, a
    cycle neither adds nor removes a task row and changes no row's id,
    title, description, completed flag, [created_at], [updated_at],
    [is_deleted] or [server_id]; only [sync_status] and [last_synced_at] can
    differ afterwards. In particular no cycle ever assigns a [server_id]. *)
Theorem sync_keeps_task_content env cfg fuel w :
  map content (tasks (snd (sync env cfg fuel w))) = map content (tasks w).
Proof.
  change (same_content w (snd (sync env cfg fuel w))).
  destruct (sync_cases env cfg fuel w) as [E|[[e E]|[E|[Hne E]]]]; rewrite E;
    try (apply same_content_tasks; reflexivity).
  unfold fmap, bind.
  pose proof (sc_sync_loop env cfg fuel (pending_rows (sync_queue w)) 0
                (mkTotals 0 0 []) (started w)) as Hloop.
  destruct (sync_loop env cfg fuel (pending_rows (sync_queue w)) 0
              (mkTotals 0 0 []) (started w)) as [[r|err] w1];
    cbn [snd ret] in *;
    (eapply same_content_trans; [|exact Hloop]);
    apply same_content_tasks; reflexivity.
Qed.

(** ** [TaskService] *)

Lemma visible_id k t : visible k t = true -> id t = k /\ is_deleted t = false.
Proof.
  unfold visible. intros H. apply andb_true_iff in H. destruct H as [H1 H2].
  apply String.eqb_eq in H1. apply negb_true_iff in H2. now split.
Qed.

Lemma find_visible_fresh k ts t0 :
  (forall t, In t ts -> id t <> k) ->
  find (visible k) (ts ++ [t0]) = if visible k t0 then Some t0 else None.
Proof.
  induction ts as [|t ts IH]; intros H; cbn [app find]; [reflexivity|].
  assert (E : visible k t = false).
  { unfold visible. rewrite (eqb_false_of_neq _ _ (H t (or_introl eq_refl))).
    reflexivity. }
  rewrite E. apply IH. intros t1 Ht1. apply H. now right.
Qed.

Lemma find_visible_update k k' f ts :
  (forall t, id (f t) = id t /\ is_deleted (f t) = is_deleted t) ->
  find (visible k) (update_where id k' f ts)
  = option_map (fun t => if String.eqb (id t) k' then f t else t)
      (find (visible k) ts).
Proof.
  intros Hf. unfold update_where.
  induction ts as [|t ts IH]; cbn [map find option_map]; [reflexivity|].
  assert (E : visible k (if String.eqb (id t) k' then f t else t) = visible k t).
  { destruct (String.eqb (id t) k'); [|reflexivity].
    unfold visible. destruct (Hf t) as [-> ->]. reflexivity. }
  rewrite E. destruct (visible k t); [reflexivity | exact IH].
Qed.

Lemma find_visible_deleted k now ts :
  find (visible k) (update_where id k (soft_delete now) ts) = None.
Proof.
  unfold update_where.
  induction ts as [|t ts IH]; cbn [map find]; [reflexivity|].
  destruct (String.eqb (id t) k) eqn:E.
  - unfold visible at 1. cbn [soft_delete id is_deleted].
    rewrite E. cbn. exact IH.
  - unfold visible at 1. rewrite E. cbn. exact IH.
Qed.

(** [createTask] (X10): with a fresh id and the storage accepting the
    INSERT and the read, the task comes back as stored: given title,
    description (['']) when absent), completed flag (false unless true was
    given), [created_at = updated_at =] the time read, not deleted,
    [sync_status = pending]. It is appended to [tasks]; the queue is not
    touched: [createTask] itself enqueues nothing. *)
Theorem createTask_returns_stored_row env data w :
  (forall t, In t (tasks w) -> id t <> uuid env (steps w)) ->
  db_error env (S (S (steps w))) = None ->
  db_error env (S (S (S (steps w)))) = None ->
  let out := createTask env data w in
  exists t,
    fst out = Ok (Some t) /\
    tasks (snd out) = tasks w ++ [t] /\
    id t = uuid env (steps w) /\
    title t = n_title data /\
    description t = or_empty (n_description data) /\
    completed t = truthy (n_completed data) /\
    created_at t = wall_clock env (S (steps w)) /\
    updated_at t = wall_clock env (S (steps w)) /\
    is_deleted t = false /\ sync_status t = task_pending /\
    sync_queue (snd out) = sync_queue w.
Proof.
  intros Hfresh H2 H3. cbv zeta.
  unfold createTask, getTask, bind, uuidv4, new_Date, db_run, db_query.
  cbn [tick steps]. rewrite H2. cbn [tick steps set_tasks tasks]. rewrite H3.
  cbn [tick steps set_tasks tasks fst snd sync_queue].
  rewrite (find_visible_fresh _ _ _ Hfresh).
  unfold visible at 1. cbn [new_task_row id is_deleted].
  rewrite String.eqb_refl. cbn [andb negb].
  eexists. split; [reflexivity|]. repeat split.
Qed.

Lemma createTask_returns_stored_row_witness :
  exists t,
    fst (createTask quiet (mkNewTask "Buy milk" None None) w3) = Ok (Some t) /\
    title t = "Buy milk" /\ description t = "" /\ completed t = false.
Proof.
  destruct (createTask_returns_stored_row quiet (mkNewTask "Buy milk" None None)
              w3) as (t & Hr & _ & _ & Ht & Hd & Hc & _).
  - intros t Ht. cbn in Ht. destruct Ht as [<-|[<-|[<-|[]]]]; discriminate.
  - reflexivity.
  - reflexivity.
  - exists t. repeat split; assumption.
Defined.

(** [updateTask] (X11): for a task that exists and is not deleted, with the
    storage accepting every call, the row returned has the title and the
    description of the update when given and the previous ones otherwise,
    [updated_at] set to the time read and [sync_status = pending]. The
    completed flag is true only when the update carries [completed: true]:
    an update that leaves [completed] out clears the flag. Rows of other ids
    are untouched and nothing is queued. *)
Theorem updateTask_merges_fields env k updates w ex :
  find (visible k) (tasks w) = Some ex ->
  db_error env (steps w) = None ->
  db_error env (S (S (steps w))) = None ->
  db_error env (S (S (S (steps w)))) = None ->
  let out := updateTask env k updates w in
  exists t,
    fst out = Ok (Some t) /\
    find (visible k) (tasks (snd out)) = Some t /\
    title t = nullish (f_title updates) (title ex) /\
    description t = nullish (f_description updates) (description ex) /\
    (completed t = true <-> f_completed updates = Some true) /\
    updated_at t = wall_clock env (S (steps w)) /\
    sync_status t = task_pending /\
    id t = k /\ created_at t = created_at ex /\ is_deleted t = false /\
    server_id t = server_id ex /\ last_synced_at t = last_synced_at ex /\
    (forall n r, nth_error (tasks w) n = Some r -> id r <> k ->
                 nth_error (tasks (snd out)) n = Some r) /\
    sync_queue (snd out) = sync_queue w.
Proof.
  intros Hex H0 H2 H3. cbv zeta.
  destruct (visible_id k ex (proj2 (find_some _ _ Hex))) as [Hid Hdel].
  unfold updateTask, getTask, bind, new_Date, db_run, db_query, ret.
  rewrite H0, Hex. cbn [tick steps]. rewrite H2.
  cbn [tick steps set_tasks tasks]. rewrite H3.
  cbn [tick steps set_tasks tasks fst snd sync_queue].
  rewrite find_visible_update by (intros; split; reflexivity).
  rewrite Hex. cbn [option_map]. rewrite Hid, String.eqb_refl.
  eexists. split; [reflexivity|]. split; [reflexivity|].
  cbn [apply_updates title description completed updated_at sync_status id
       created_at is_deleted server_id last_synced_at].
  repeat split; auto.
  - destruct (f_completed updates) as [[|]|]; cbn; intros; congruence.
  - intros H. now rewrite H.
  - intros n r Hn Hne. rewrite (nth_error_update_where _ _ _ _ _ _ Hn).
    now rewrite (eqb_false_of_neq _ _ Hne).
Qed.

Lemma updateTask_merges_fields_witness :
  exists t,
    fst (updateTask quiet "t1" (mkFields (Some "B") None None [])
           (mkWorld [mkTask "t1" "A" "d" true 0 0 false task_synced None None]
                    [] [] 0))
    = Ok (Some t) /\
    title t = "B" /\ description t = "d" /\ completed t <> true.
Proof.
  destruct (updateTask_merges_fields quiet "t1" (mkFields (Some "B") None None [])
              (mkWorld [mkTask "t1" "A" "d" true 0 0 false task_synced None None]
                       [] [] 0)
              (mkTask "t1" "A" "d" true 0 0 false task_synced None None)
              eq_refl eq_refl eq_refl eq_refl)
    as (t & Hr & _ & Ht & Hd & Hc & _).
  exists t. split; [exact Hr|]. split; [exact Ht|]. split; [exact Hd|].
  intros H. apply Hc in H. discriminate.
Defined.

(** [updateTask] and [deleteTask] on an id that is unknown or soft-deleted
    (X12): once the lookup has answered, [updateTask] returns [null] and
    [deleteTask] returns [false]; neither writes anything. *)
Theorem missing_task_is_left_alone env k updates w :
  find (visible k) (tasks w) = None ->
  db_error env (steps w) = None ->
  (forall t, In t (tasks w) -> id t = k -> is_deleted t = true) /\
  fst (updateTask env k updates w) = Ok None /\
  tasks (snd (updateTask env k updates w)) = tasks w /\
  sync_queue (snd (updateTask env k updates w)) = sync_queue w /\
  fst (deleteTask env k w) = Ok false /\
  tasks (snd (deleteTask env k w)) = tasks w /\
  sync_queue (snd (deleteTask env k w)) = sync_queue w.
Proof.
  intros Hnone H0. split.
  - intros t Ht Hid.
    pose proof (find_none _ _ Hnone t Ht) as Hv. unfold visible in Hv.
    rewrite Hid, String.eqb_refl in Hv. cbn in Hv.
    now apply negb_false_iff in Hv.
  - unfold updateTask, deleteTask, getTask, bind, db_query, ret.
    rewrite H0, Hnone. repeat split.
Qed.

Lemma missing_task_is_left_alone_witness :
  fst (deleteTask quiet "nope" w3) = Ok false /\
  fst (updateTask quiet "nope" (mkFields (Some "B") None None []) w3) = Ok None.
Proof.
  destruct (missing_task_is_left_alone quiet "nope"
              (mkFields (Some "B") None None []) w3 eq_refl eq_refl)
    as (_ & Hu & _ & _ & Hd & _).
  split; [exact Hd | exact Hu].
Defined.

(** [deleteTask] (X13): deleting a task that exists is a soft delete. With
    the storage accepting the calls it returns [true]; no row is removed,
    every row of that id is flagged deleted with [sync_status = pending] and
    [updated_at] set to the time read, rows of other ids are untouched and
    nothing is queued. From then on the id is not found: [getTask] returns
    [null], a second [deleteTask] returns [false] and [updateTask] returns
    [null]. *)
Theorem deleteTask_hides_the_task env k w ex :
  find (visible k) (tasks w) = Some ex ->
  db_error env (steps w) = None ->
  db_error env (S (S (steps w))) = None ->
  let out := deleteTask env k w in
  fst out = Ok true /\
  length (tasks (snd out)) = length (tasks w) /\
  (forall r, In r (tasks (snd out)) -> id r = k ->
     is_deleted r = true /\ sync_status r = task_pending /\
     updated_at r = wall_clock env (S (steps w))) /\
  (forall n r, nth_error (tasks w) n = Some r -> id r <> k ->
               nth_error (tasks (snd out)) n = Some r) /\
  sync_queue (snd out) = sync_queue w /\
  (forall env' updates, db_error env' (steps (snd out)) = None ->
     fst (getTask env' k (snd out)) = Ok None /\
     fst (deleteTask env' k (snd out)) = Ok false /\
     fst (updateTask env' k updates (snd out)) = Ok None).
Proof.
  intros Hex H0 H2. cbv zeta.
  assert (Hrun : deleteTask env k w
                 = (Ok true,
                    mkWorld (update_where id k
                               (soft_delete (wall_clock env (S (steps w))))
                               (tasks w))
                            (sync_queue w) (console w) (S (S (S (steps w)))))).
  { unfold deleteTask, getTask, bind, new_Date, db_run, db_query, ret.
    rewrite H0, Hex. cbn [tick steps]. rewrite H2. reflexivity. }
  rewrite Hrun. cbn [fst snd tasks sync_queue steps].
  split; [reflexivity|]. split; [apply length_map|]. split; [|split; [|split]].
  - intros r Hr Hid. apply In_update_where in Hr. destruct Hr as (r0 & _ & ->).
    destruct (String.eqb (id r0) k) eqn:E; [now repeat split|].
    apply String.eqb_neq in E. now elim E.
  - intros n r Hn Hne. rewrite (nth_error_update_where _ _ _ _ _ _ Hn).
    now rewrite (eqb_false_of_neq _ _ Hne).
  - reflexivity.
  - intros env' updates H'.
    unfold getTask, deleteTask, updateTask, getTask, bind, db_query, ret.
    cbn [steps tasks]. rewrite H', find_visible_deleted. repeat split.
Qed.

Lemma deleteTask_hides_the_task_witness :
  fst (deleteTask quiet "t1" w3) = Ok true /\
  fst (getTask quiet "t1" (snd (deleteTask quiet "t1" w3))) = Ok None /\
  length (tasks (snd (deleteTask quiet "t1" w3))) = 3%nat.
Proof.
  destruct (deleteTask_hides_the_task quiet "t1" w3 (task "t1")
              eq_refl eq_refl eq_refl) as (Hr & Hl & _ & _ & _ & Hafter).
  destruct (Hafter quiet (mkFields None None None []) eq_refl) as (Hg & _).
  split; [exact Hr|]. split; [exact Hg | exact Hl].
Defined.

(** [markSynced] and [updateSyncStatus] on the server id (X14): for a task
    row, with the write accepted, both leave it [synced] with
    [last_synced_at] set to the time read and its other columns as they
    were; called without a server id, [markSynced] stores null over a
    [server_id] already known, whereas [updateSyncStatus] keeps it. *)
Theorem acknowledging_without_server_id env k w n t :
  nth_error (tasks w) n = Some t ->
  id t = k ->
  db_error env (S (steps w)) = None ->
  (exists t',
      nth_error (tasks (snd (markSynced env k None w))) n = Some t' /\
      server_id t' = None /\
      sync_status t' = task_synced /\
      last_synced_at t' = Some (wall_clock env (steps w)) /\
      (id t', title t', description t', completed t', created_at t',
       updated_at t', is_deleted t')
      = (id t, title t, description t, completed t, created_at t,
         updated_at t, is_deleted t)) /\
  (exists t',
      nth_error (tasks (snd (updateSyncStatus env k arg_synced None w))) n
      = Some t' /\
      server_id t' = server_id t /\
      sync_status t' = task_synced /\
      last_synced_at t' = Some (wall_clock env (steps w)) /\
      (id t', title t', description t', completed t', created_at t',
       updated_at t', is_deleted t')
      = (id t, title t, description t, completed t, created_at t,
         updated_at t, is_deleted t)).
Proof.
  intros Hn <- H1. split.
  - unfold markSynced, bind, new_Date, db_run. cbn [tick steps]. rewrite H1.
    cbn [tick set_tasks tasks snd].
    rewrite (nth_error_update_where _ _ _ _ _ _ Hn), String.eqb_refl.
    eexists. split; [reflexivity|]. cbn. repeat split.
  - unfold updateSyncStatus, try_catch, bind, new_Date, db_run, log, ret.
    cbn [tick steps]. rewrite H1. cbn [tick steps set_tasks tasks].
    destruct (db_error env (S (S (steps w))));
      cbn [tick set_tasks set_queue tasks snd];
      rewrite (nth_error_update_where _ _ _ _ _ _ Hn), String.eqb_refl;
      (eexists; split; [reflexivity|]; cbn; repeat split).
Qed.

Lemma acknowledging_without_server_id_witness :
  (exists t',
      nth_error (tasks (snd (markSynced quiet "t1" None
                               (mkWorld [newer] [] [] 0)))) 0 = Some t' /\
      server_id t' = None) /\
  (exists t',
      nth_error (tasks (snd (updateSyncStatus quiet "t1" arg_synced None
                               (mkWorld [newer] [] [] 0)))) 0 = Some t' /\
      server_id t' = Some "s1").
Proof.
  destruct (acknowledging_without_server_id quiet "t1"
              (mkWorld [newer] [] [] 0) 0%nat newer eq_refl eq_refl eq_refl)
    as ((t1 & Hn1 & Hs1 & _) & (t2 & Hn2 & Hs2 & _)).
  split; [exists t1 | exists t2]; split; assumption.
Defined.

(** ** The task routes *)

Lemma createTask_run env data w :
  (forall t, In t (tasks w) -> id t <> uuid env (steps w)) ->
  db_error env (S (S (steps w))) = None ->
  db_error env (S (S (S (steps w)))) = None ->
  createTask env data w
  = (Ok (Some (new_task_row (uuid env (steps w)) data
                 (wall_clock env (S (steps w))))),
     mkWorld (tasks w ++ [new_task_row (uuid env (steps w)) data
                            (wall_clock env (S (steps w)))])
             (sync_queue w) (console w) (S (S (S (S (steps w)))))).
Proof.
  intros Hfresh H2 H3.
  unfold createTask, getTask, bind, uuidv4, new_Date, db_run, db_query.
  cbn [tick steps]. rewrite H2. cbn [tick steps set_tasks tasks]. rewrite H3.
  cbn [tick steps set_tasks tasks sync_queue console].
  rewrite (find_visible_fresh _ _ _ Hfresh).
  unfold visible at 1. cbn [new_task_row id is_deleted].
  now rewrite String.eqb_refl.
Qed.

Lemma addToSyncQueue_run env taskId op payload w :
  addToSyncQueue env taskId op payload w
  = match db_error env (S (S (steps w))) with
    | None =>
        (Ok tt,
         mkWorld (tasks w)
           (sync_queue w ++ [new_queue_row (uuid env (steps w)) taskId op
                               payload (wall_clock env (S (steps w)))])
           (console w ++ [LogAddedToQueue taskId op]) (S (S (S (steps w)))))
    | Some e =>
        (Throw e,
         mkWorld (tasks w) (sync_queue w) (console w) (S (S (S (steps w)))))
    end.
Proof.
  unfold addToSyncQueue, bind, uuidv4, new_Date, db_run, log.
  cbn [tick steps]. destruct (db_error env (S (S (steps w)))); reflexivity.
Qed.

Lemma post_task_try_run env stringify title description w :
  (forall t, In t (tasks w) -> id t <> uuid env (2 + steps w)) ->
  db_error env (4 + steps w) = None ->
  db_error env (5 + steps w) = None ->
  let t := new_task_row (uuid env (2 + steps w))
             (mkNewTask title description (Some false))
             (wall_clock env (3 + steps w)) in
  post_task_try env stringify title description w
  = match db_error env (8 + steps w) with
    | None =>
        (Ok (mkReply 201 (json_task t)),
         mkWorld (tasks w ++ [t])
           (sync_queue w ++ [new_queue_row (uuid env (6 + steps w)) (id t)
                               create (stringify t)
                               (wall_clock env (7 + steps w))])
           (console w ++ [LogAddedToQueue (id t) create]) (9 + steps w))
    | Some e =>
        (Throw e,
         mkWorld (tasks w ++ [t]) (sync_queue w) (console w) (9 + steps w))
    end.
Proof.
  intros Hfresh H4 H5. cbv zeta. unfold post_task_try.
  unfold bind at 1, new_Date at 1. unfold bind at 1, new_Date at 1.
  cbn [tick steps].
  match goal with
  | |- bind (createTask env ?d) _ ?w0 = _ =>
      rewrite (bind_ok _ _ _ _ _ (createTask_run env d w0 Hfresh H4 H5))
  end.
  cbn [tick steps tasks sync_queue console].
  unfold bind. rewrite addToSyncQueue_run. cbn [steps tasks sync_queue console].
  destruct (db_error env (8 + steps w)) eqn:E; cbn [Nat.add] in E; rewrite E;
    reflexivity.
Qed.

(** Requests stopped by validation (X15): [POST /] without a title (absent
    or empty) answers 400 "Title is required" and [PUT /:id] with an object
    without keys answers 400 "No update fields provided"; in both cases the
    services are not called: no storage call is made, no table changes. *)
Theorem invalid_requests_reach_no_service env stringify description k updates a :
  (forall title, title = None \/ title = Some "" ->
     fst (post_task env stringify (mkPostBody title description) a)
     = mkReply 400 (json_error "Title is required") /\
     world (snd (post_task env stringify (mkPostBody title description) a))
     = world a) /\
  (no_keys updates = true ->
     put_task env k updates a
     = (mkReply 400 (json_error "No update fields provided"), a)) /\
  (no_keys updates = true <->
     f_title updates = None /\ f_description updates = None /\
     f_completed updates = None /\ f_other_keys updates = []).
Proof.
  split; [|split].
  - intros title [->| ->]; now split.
  - intros H. unfold put_task. now rewrite H.
  - unfold no_keys.
    destruct (f_title updates), (f_description updates),
      (f_completed updates), (f_other_keys updates);
      split; intros H; try discriminate; try (now repeat split);
      destruct H as (H1 & H2 & H3 & H4); discriminate.
Qed.

Lemma invalid_requests_reach_no_service_witness :
  fst (post_task quiet (fun _ => "{}") (mkPostBody (Some "") None)
         (mkApp w3 []))
  = mkReply 400 (json_error "Title is required") /\
  put_task quiet "t1" (mkFields None None None []) (mkApp w3 [])
  = (mkReply 400 (json_error "No update fields provided"), mkApp w3 []).
Proof.
  destruct (invalid_requests_reach_no_service quiet (fun _ => "{}") None "t1"
              (mkFields None None None []) (mkApp w3 [])) as (Hp & Hu & _).
  split.
  - apply (Hp (Some "")). now right.
  - apply Hu. reflexivity.
Defined.

(** [POST /] (X16): with a title, a fresh id and the storage accepting the
    calls, the answer is 201 with the task; the task is appended to [tasks]
    with [sync_status = pending] and [completed = false], and exactly one
    row is appended to the queue: operation [create], referencing the id of
    the task, its payload the serialised task, its retry count 0. *)
Theorem post_task_creates_and_enqueues env stringify given text a :
  given <> "" ->
  (forall t, In t (tasks (world a)) -> id t <> uuid env (2 + steps (world a))) ->
  db_error env (4 + steps (world a)) = None ->
  db_error env (5 + steps (world a)) = None ->
  db_error env (8 + steps (world a)) = None ->
  let out := post_task env stringify (mkPostBody (Some given) text) a in
  exists t r,
    fst out = mkReply 201 (json_task t) /\
    tasks (world (snd out)) = tasks (world a) ++ [t] /\
    sync_queue (world (snd out)) = sync_queue (world a) ++ [r] /\
    title t = given /\
    description t = or_empty text /\
    completed t = false /\ sync_status t = task_pending /\
    is_deleted t = false /\
    task_id r = id t /\ operation r = create /\ data r = stringify t /\
    retry_count r = 0.
Proof.
  intros Hne Hfresh H4 H5 H8. cbv zeta. unfold post_task.
  cbn [b_title b_description app_log world].
  destruct given as [|c rest]; [now elim Hne|].
  rewrite (post_task_try_run env stringify _ text (world a) Hfresh H4 H5).
  rewrite H8. cbn [fst snd with_world world tasks sync_queue].
  do 2 eexists. split; [reflexivity|]. repeat split.
Qed.

Lemma post_task_creates_and_enqueues_witness :
  exists t r,
    fst (post_task quiet (fun t => title t) (mkPostBody (Some "Buy milk") None)
           (mkApp w3 []))
    = mkReply 201 (json_task t) /\
    sync_queue (world (snd (post_task quiet (fun t => title t)
                              (mkPostBody (Some "Buy milk") None)
                              (mkApp w3 []))))
    = sync_queue w3 ++ [r] /\
    task_id r = id t /\ data r = "Buy milk".
Proof.
  destruct (post_task_creates_and_enqueues quiet (fun t => title t) "Buy milk"
              None (mkApp w3 []))
    as (t & r & Hr & _ & Hq & Ht & _ & _ & _ & _ & Hid & _ & Hd & _).
  - discriminate.
  - intros t Ht. cbn in Ht. destruct Ht as [<-|[<-|[<-|[]]]]; discriminate.
  - reflexivity.
  - reflexivity.
  - reflexivity.
  - exists t, r. repeat split; try assumption. now rewrite Hd, Ht.
Defined.

(** [POST /] when the queue INSERT is rejected (X17): the task has been
    stored by then. The answer is 500 "Failed to create task", yet the task
    row stays in [tasks] and no queue row exists for it. *)
Theorem post_task_can_store_without_enqueueing env stringify given text a e :
  given <> "" ->
  (forall t, In t (tasks (world a)) -> id t <> uuid env (2 + steps (world a))) ->
  db_error env (4 + steps (world a)) = None ->
  db_error env (5 + steps (world a)) = None ->
  db_error env (8 + steps (world a)) = Some e ->
  let out := post_task env stringify (mkPostBody (Some given) text) a in
  fst out = mkReply 500 (json_error "Failed to create task") /\
  (exists t,
      tasks (world (snd out)) = tasks (world a) ++ [t] /\
      title t = given /\ sync_status t = task_pending /\
      forall r, In r (sync_queue (world (snd out))) ->
                In r (sync_queue (world a))) /\
  sync_queue (world (snd out)) = sync_queue (world a) /\
  exists stamp,
    app_console (snd out)
    = app_console a
      ++ [(length (console (world a)),
           LogIncomingPost (mkPostBody (Some given) text));
          (stamp, LogRouteError e)].
Proof.
  intros Hne Hfresh H4 H5 H8. cbv zeta. unfold post_task.
  cbn [b_title b_description app_log world].
  destruct given as [|c rest]; [now elim Hne|].
  rewrite (post_task_try_run env stringify _ text (world a) Hfresh H4 H5).
  rewrite H8.
  cbn [fst snd with_world world tasks sync_queue app_log app_console].
  split; [reflexivity|]. split; [|split].
  - eexists. split; [reflexivity|]. repeat split. auto.
  - reflexivity.
  - eexists. now rewrite <- app_assoc.
Qed.

Lemma post_task_can_store_without_enqueueing_witness :
  fst (post_task (failing_at [8%nat]) (fun t => title t)
         (mkPostBody (Some "Buy milk") None) (mkApp w3 []))
  = mkReply 500 (json_error "Failed to create task") /\
  length (tasks (world (snd (post_task (failing_at [8%nat]) (fun t => title t)
                               (mkPostBody (Some "Buy milk") None)
                               (mkApp w3 [])))))
  = 4%nat.
Proof.
  destruct (post_task_can_store_without_enqueueing (failing_at [8%nat])
              (fun t => title t) "Buy milk" None (mkApp w3 []) "SQLITE_IOERR")
    as (Hr & (t & Ht & _) & _).
  - discriminate.
  - intros t Ht. cbn in Ht. destruct Ht as [<-|[<-|[<-|[]]]]; discriminate.
  - reflexivity.
  - reflexivity.
  - reflexivity.
  - split; [exact Hr|]. rewrite Ht. reflexivity.
Defined.

Lemma updateTask_keeps_queue env k updates w :
  sync_queue (snd (updateTask env k updates w)) = sync_queue w.
Proof.
  unfold updateTask, getTask, bind, new_Date, db_run, db_query, ret.
  destruct (db_error env (steps w)); [reflexivity|].
  destruct (find (visible k) (tasks w)); [|reflexivity].
  cbn [tick steps]. destruct (db_error env (S (S (steps w)))); [reflexivity|].
  cbn [tick steps set_tasks].
  destruct (db_error env (S (S (S (steps w))))); reflexivity.
Qed.

Lemma deleteTask_keeps_queue env k w :
  sync_queue (snd (deleteTask env k w)) = sync_queue w.
Proof.
  unfold deleteTask, getTask, bind, new_Date, db_run, db_query, ret.
  destruct (db_error env (steps w)); [reflexivity|].
  destruct (find (visible k) (tasks w)); [|reflexivity].
  cbn [tick steps]. destruct (db_error env (S (S (steps w)))); reflexivity.
Qed.

(** The routes and the queue (X18): whatever the storage does, [GET /],
    [GET /:id], [PUT /:id] and [DELETE /:id] leave [sync_queue] exactly as
    it was. Of the task routes only [POST /] ever queues a mutation;
    updates and deletions made through the API are not queued. *)
Theorem only_post_enqueues env k updates a :
  sync_queue (world (snd (get_tasks env a))) = sync_queue (world a) /\
  sync_queue (world (snd (get_task env k a))) = sync_queue (world a) /\
  sync_queue (world (snd (put_task env k updates a))) = sync_queue (world a) /\
  sync_queue (world (snd (delete_task env k a))) = sync_queue (world a).
Proof.
  split; [|split; [|split]].
  - unfold get_tasks, getAllTasks, db_query.
    destruct (db_error env (steps (world a))); reflexivity.
  - unfold get_task, getTask, db_query.
    destruct (db_error env (steps (world a))); [reflexivity|].
    destruct (find (visible k) (tasks (world a))); reflexivity.
  - unfold put_task. destruct (no_keys updates); [reflexivity|].
    pose proof (updateTask_keeps_queue env k updates (world a)) as H.
    destruct (updateTask env k updates (world a)) as [[[t|]|e] w]; exact H.
  - unfold delete_task.
    pose proof (deleteTask_keeps_queue env k (world a)) as H.
    destruct (deleteTask env k (world a)) as [[[|]|e] w]; exact H.
Qed.

Lemma updateTask_run env k updates w ex :
  find (visible k) (tasks w) = Some ex ->
  db_error env (steps w) = None ->
  db_error env (S (S (steps w))) = None ->
  db_error env (S (S (S (steps w)))) = None ->
  updateTask env k updates w
  = (Ok (Some (apply_updates updates ex (wall_clock env (S (steps w))) ex)),
     mkWorld (update_where id k
                (apply_updates updates ex (wall_clock env (S (steps w))))
                (tasks w))
             (sync_queue w) (console w) (S (S (S (S (steps w)))))).
Proof.
  intros Hex H0 H2 H3.
  destruct (visible_id k ex (proj2 (find_some _ _ Hex))) as [Hid _].
  unfold updateTask, getTask, bind, new_Date, db_run, db_query, ret.
  rewrite H0, Hex. cbn [tick steps]. rewrite H2.
  cbn [tick steps set_tasks tasks]. rewrite H3.
  cbn [tick steps set_tasks tasks sync_queue console].
  rewrite find_visible_update by (intros; split; reflexivity).
  rewrite Hex. cbn [option_map]. now rewrite Hid, String.eqb_refl.
Qed.

(** An edit is never sent (X19): when nothing is pending, a task changed
    through [PUT /:id] is flagged [pending], but the cycle that follows
    finds no pending row: it reports success with nothing synced and the
    task still carries [sync_status = pending] afterwards. *)
Theorem edited_task_is_never_sent env cfg fuel k updates a ex :
  reliable env ->
  no_keys updates = false ->
  find (visible k) (tasks (world a)) = Some ex ->
  pending_rows (sync_queue (world a)) = [] ->
  let a1 := snd (put_task env k updates a) in
  health env (steps (world a1)) = true ->
  let out := sync env cfg fuel (world a1) in
  (exists t, fst (put_task env k updates a) = mkReply 200 (json_task t) /\
             sync_status t = task_pending) /\
  fst out = Ok (Some (mkSyncResult 1 0 0 [])) /\
  exists t, find (visible k) (tasks (snd out)) = Some t /\
            sync_status t = task_pending.
Proof.
  intros Hrel Hkeys Hex Hnone. cbv zeta. unfold put_task. rewrite Hkeys.
  rewrite (updateTask_run env k updates (world a) ex Hex (Hrel _) (Hrel _)
             (Hrel _)).
  cbn [fst snd with_world world steps]. intros Hh.
  split; [eexists; split; reflexivity|].
  match goal with
  | |- context [sync env cfg fuel ?w1] =>
      rewrite (sync_nothing_pending env cfg fuel w1 Hh (Hrel _) Hnone)
  end.
  cbn [fst snd idle tasks]. split; [reflexivity|].
  destruct (visible_id k ex (proj2 (find_some _ _ Hex))) as [Hid _].
  rewrite find_visible_update by (intros; split; reflexivity).
  rewrite Hex. cbn [option_map]. rewrite Hid, String.eqb_refl.
  eexists. split; reflexivity.
Qed.

Lemma edited_task_is_never_sent_witness :
  fst (sync quiet cfg2 5
         (world (snd (put_task quiet "t1" (mkFields (Some "B") None None [])
                        (mkApp (mkWorld [task "t1"] [] [] 0) [])))))
  = Ok (Some (mkSyncResult 1 0 0 [])).
Proof.
  apply (edited_task_is_never_sent quiet cfg2 5%nat "t1"
           (mkFields (Some "B") None None [])
           (mkApp (mkWorld [task "t1"] [] [] 0) []) (task "t1")
           (fun _ => eq_refl) eq_refl eq_refl eq_refl eq_refl).
Defined.

(** ** The scheduler *)

(** One scheduled run (X20). [runSync] probes the server itself and [sync]
    probes it again. If the first probe fails, [sync] is not started: no
    table changes and the services write no console line. If the first
    probe succeeds and the second fails, the cycle aborts and the scheduler
    reports it as completed with 0 synced and 0 failed. If reading the
    pending rows is rejected, the rejection of [sync] is caught and logged,
    and the run ends normally. In all three cases both tables are as they
    were. *)
Theorem scheduled_run_without_a_cycle env cfg fuel a :
  let w := world a in
  (health env (steps w) = false ->
   exists a',
     runSync env cfg fuel a = Some a' /\
     tasks (world a') = tasks w /\ sync_queue (world a') = sync_queue w /\
     console (world a') = console w /\
     map snd (app_console a')
     = map snd (app_console a) ++ [LogAutoSyncChecking; LogAutoSyncOffline]) /\
  (health env (steps w) = true -> health env (S (steps w)) = false ->
   exists a',
     runSync env cfg fuel a = Some a' /\
     tasks (world a') = tasks w /\ sync_queue (world a') = sync_queue w /\
     map snd (app_console a')
     = map snd (app_console a)
       ++ [LogAutoSyncChecking; LogAutoSyncConnected;
           LogAutoSyncCompleted 0 0]) /\
  (forall e,
   health env (steps w) = true -> health env (S (steps w)) = true ->
   db_error env (S (S (steps w))) = Some e ->
   exists a',
     runSync env cfg fuel a = Some a' /\
     tasks (world a') = tasks w /\ sync_queue (world a') = sync_queue w /\
     map snd (app_console a')
     = map snd (app_console a)
       ++ [LogAutoSyncChecking; LogAutoSyncConnected; LogAutoSyncError e]).
Proof.
  cbv zeta. split; [|split].
  - intros H. unfold runSync, checkConnectivity.
    cbn [app_log world steps]. rewrite H.
    eexists. split; [reflexivity|].
    cbn [app_log with_world world app_console tick tasks sync_queue console].
    repeat split. rewrite !map_app, <- app_assoc. reflexivity.
  - intros H1 H2. unfold runSync, checkConnectivity.
    cbn [app_log world steps]. rewrite H1.
    cbn [app_log with_world world app_console].
    rewrite (sync_offline env cfg fuel (tick (world a)) H2).
    eexists. split; [reflexivity|].
    cbn [app_log with_world world app_console tick tasks sync_queue console
         aborted synced_items failed_items].
    repeat split. rewrite !map_app, <- !app_assoc. reflexivity.
  - intros e H1 H2 H3. unfold runSync, checkConnectivity.
    cbn [app_log world steps]. rewrite H1.
    cbn [app_log with_world world app_console].
    rewrite (sync_read_fails env cfg fuel (tick (world a)) e H2 H3).
    eexists. split; [reflexivity|].
    cbn [app_log with_world world app_console tick tasks sync_queue console
         started].
    repeat split. rewrite !map_app, <- !app_assoc. reflexivity.
Qed.

Lemma scheduled_run_without_a_cycle_witness :
  exists a',
    runSync offline cfg2 5 (mkApp w3 []) = Some a' /\
    sync_queue (world a') = sync_queue w3 /\ console (world a') = [].
Proof.
  destruct (scheduled_run_without_a_cycle offline cfg2 5%nat (mkApp w3 []))
    as (Hoff & _).
  destruct (Hoff eq_refl) as (a' & Hr & _ & Hq & Hc & _).
  exists a'. repeat split; assumption.
Defined.

(** The first run of [startAutoSync] (X21): with the server reachable at
    both probes and the storage accepting every call, the run started by
    [startAutoSync] syncs every pending row: nothing is pending afterwards
    and the scheduler's lines are the start line, the two progress lines and
    a completion line with the number of rows that were pending and no
    failure. *)
Theorem first_scheduled_run_syncs_everything env cfg fuel intervalMs a :
  reliable env ->
  0 < batchSize cfg ->
  health env (steps (world a)) = true ->
  health env (S (steps (world a))) = true ->
  (length (pending_rows (sync_queue (world a))) <= fuel)%nat ->
  exists a',
    startAutoSync env cfg fuel intervalMs a = Some a' /\
    pending_rows (sync_queue (world a')) = [] /\
    map snd (app_console a')
    = map snd (app_console a)
      ++ [LogAutoSyncStarted intervalMs; LogAutoSyncChecking;
          LogAutoSyncConnected;
          LogAutoSyncCompleted
            (length (pending_rows (sync_queue (world a)))) 0].
Proof.
  intros Hrel Hs H1 H2 Hfuel.
  unfold startAutoSync, runSync, checkConnectivity.
  cbn [app_log world steps]. rewrite H1.
  cbn [app_log with_world world app_console].
  destruct (sync_all_ok_run env cfg fuel (tick (world a)) Hrel Hs H2 Hfuel)
    as (w' & Hrun & Hset).
  rewrite Hrun. eexists. split; [reflexivity|].
  cbn [app_log with_world world app_console synced_items failed_items].
  split.
  - now apply (settled_no_pending (tick (world a))).
  - rewrite !map_app, <- !app_assoc. reflexivity.
Qed.

Lemma first_scheduled_run_syncs_everything_witness :
  exists a',
    startAutoSync quiet cfg2 5 300000 (mkApp w3 []) = Some a' /\
    pending_rows (sync_queue (world a')) = [].
Proof.
  destruct (first_scheduled_run_syncs_everything quiet cfg2 5%nat 300000
              (mkApp w3 []) (fun _ => eq_refl) eq_refl eq_refl eq_refl)
    as (a' & Hr & Hp & _).
  - cbn. lia.
  - exists a'. split; assumption.
Defined.
